(** * JSONObject: attribute interception, relationship synchronization and
      the top-level operations of [jsonclasses/json_object.py]

    A shallow embedding of the [JSONObject] base class.  Python objects live
    in a heap indexed by object identity; each object carries its class name
    and its instance [__dict__].  Attribute assignment ([__setattr__]) is a
    function on heaps that wraps lists and dicts, stores the value and then
    synchronizes the other side of a relationship. *)

From Stdlib Require Import ZArith Lia List.
From stdpp Require Import gmap strings list.

Open Scope string_scope.

(** ** Python values *)

(** Identity of a [JSONObject] instance (its address). *)
Definition oid := nat.

(** The values an attribute can be given.  Instances are references into the
    heap; lists and dicts are carried by value, which is enough here because
    [__setattr__] always copies an assigned list or dict into a new owned
    collection ([OwnedList[Any](value)], [OwnedDict[str, Any](value)]). *)
#[local] Unset Elimination Schemes.
Inductive value : Type :=
  | VNone
  | VInt (z : Z)
  | VStr (s : string)
  | VObj (o : oid)
  | VList (items : list value)
  | VDict (items : list (string * value))
  | VOwnedList (owner : oid) (keypath : string) (items : list value)
  | VOwnedDict (owner : oid) (keypath : string) (items : list (string * value)).
#[local] Set Elimination Schemes.

(** Induction over values that reaches the elements of lists and dicts. *)
Section value_induction.
Variable P : value -> Prop.
Hypothesis HNone : P VNone.
Hypothesis HInt : forall z, P (VInt z).
Hypothesis HStr : forall s, P (VStr s).
Hypothesis HObj : forall o, P (VObj o).
Hypothesis HList : forall l, Forall P l -> P (VList l).
Hypothesis HDict : forall d, Forall (fun kv => P (snd kv)) d -> P (VDict d).
Hypothesis HOwnedList :
  forall o p l, Forall P l -> P (VOwnedList o p l).
Hypothesis HOwnedDict :
  forall o p d, Forall (fun kv => P (snd kv)) d -> P (VOwnedDict o p d).

Fixpoint value_ind (v : value) : P v :=
  let fix items (l : list value) : Forall P l :=
    match l with
    | [] => List.Forall_nil _
    | x :: l => List.Forall_cons _ _ _ (value_ind x) (items l)
    end in
  let fix entries (d : list (string * value))
      : Forall (fun kv => P (snd kv)) d :=
    match d with
    | [] => List.Forall_nil _
    | kv :: d => List.Forall_cons _ _ _ (value_ind (snd kv)) (entries d)
    end in
  match v with
  | VNone => HNone
  | VInt z => HInt z
  | VStr s => HStr s
  | VObj o => HObj o
  | VList l => HList l (items l)
  | VDict d => HDict d (entries d)
  | VOwnedList o p l => HOwnedList o p l (items l)
  | VOwnedDict o p d => HOwnedDict o p d (entries d)
  end.
End value_induction.

(** [isinstance(v, list)]: [OwnedList] is a [list] subclass. *)
Definition as_list (v : value) : option (list value) :=
  match v with
  | VList l | VOwnedList _ _ l => Some l
  | _ => None
  end.

(** [isinstance(v, dict)]. *)
Definition as_dict (v : value) : option (list (string * value)) :=
  match v with
  | VDict d | VOwnedDict _ _ d => Some d
  | _ => None
  end.

(** [isinstance(v, JSONObject)]. *)
Definition isinstance_JSONObject (v : value) : bool :=
  match v with VObj _ => true | _ => false end.

(** Python's [is]: object identity.  For instances it is equality of
    addresses; for the by-value part of the model it is equality of the
    value, which is what [x is x] gives for a value read twice from the same
    place. *)
Fixpoint identical (x y : value) : bool :=
  match x, y with
  | VNone, VNone => true
  | VInt a, VInt b => Z.eqb a b
  | VStr a, VStr b => String.eqb a b
  | VObj a, VObj b => Nat.eqb a b
  | VList l1, VList l2 =>
      (fix go (l1 l2 : list value) : bool :=
         match l1, l2 with
         | [], [] => true
         | a :: l1, b :: l2 => identical a b && go l1 l2
         | _, _ => false
         end) l1 l2
  | VDict d1, VDict d2 =>
      (fix go (d1 d2 : list (string * value)) : bool :=
         match d1, d2 with
         | [], [] => true
         | (k1, a) :: d1, (k2, b) :: d2 =>
             String.eqb k1 k2 && identical a b && go d1 d2
         | _, _ => false
         end) d1 d2
  | VOwnedList o1 p1 l1, VOwnedList o2 p2 l2 =>
      Nat.eqb o1 o2 && String.eqb p1 p2 &&
      (fix go (l1 l2 : list value) : bool :=
         match l1, l2 with
         | [], [] => true
         | a :: l1, b :: l2 => identical a b && go l1 l2
         | _, _ => false
         end) l1 l2
  | VOwnedDict o1 p1 d1, VOwnedDict o2 p2 d2 =>
      Nat.eqb o1 o2 && String.eqb p1 p2 &&
      (fix go (d1 d2 : list (string * value)) : bool :=
         match d1, d2 with
         | [], [] => true
         | (k1, a) :: d1, (k2, b) :: d2 =>
             String.eqb k1 k2 && identical a b && go d1 d2
         | _, _ => false
         end) d1 d2
  | _, _ => false
  end.

(** ** Exceptions and results *)

Inductive exn : Type :=
  | StopIteration
  | AttributeError (name : string)
  | RecursionError
  | ValueError (msg : string)
  | TypeError
  | ValidationException
  | OtherException (what : string).

Inductive result (A : Type) : Type :=
  | Ok (a : A)
  | Raise (e : exn).
Arguments Ok {A} a.
Arguments Raise {A} e.

(** ** The heap of instances *)

Record obj : Type := mkObj {
  obj_class : string;                 (* [self.__class__.__name__] *)
  obj_dict : gmap string value        (* [self.__dict__] *)
}.

Definition heap := oid -> obj.

(** [super().__setattr__(name, v)]: the plain store into the instance
    [__dict__], which is what [object.__setattr__] does for every name that
    is no data descriptor of the class (see [reserved_name] below). *)
Definition store (h : heap) (o : oid) (name : string) (v : value) : heap :=
  fun o' =>
    if Nat.eqb o' o
    then mkObj (obj_class (h o)) (<[name := v]> (obj_dict (h o)))
    else h o'.

(** [getattr(o, name)] on an instance attribute: the entry of the instance
    [__dict__].  [None] is a name the instance has no entry for, where the
    lookup fails with [AttributeError] unless the class supplies a value of
    its own; every declared field has an entry once [__init__] has run
    (lines 39-40). *)
Definition getattr (h : heap) (o : oid) (name : string) : option value :=
  obj_dict (h o) !! name.

Definition class_of (h : heap) (o : oid) : string := obj_class (h o).

(** The names that [object.__setattr__] does not store in the instance
    [__dict__]: the data descriptors that every class without [__slots__]
    has.  Assigning [__dict__] replaces the whole instance dictionary (or
    raises [TypeError] when the value is no dict), assigning [__class__]
    changes the class (or raises [TypeError] when the value is no class),
    and [__weakref__] cannot be assigned.  [store] is the behaviour for every
    other name. *)
Definition reserved_name (name : string) : bool :=
  existsb (String.eqb name) ["__dict__"; "__class__"; "__weakref__"].


(** ** Python comparison: [==], [!=] and [in]

    [JSONObject] is declared [@dataclass(init=False)] (line 16) and
    [__init__] enumerates [dataclass_fields(self)] (line 39), so instances are
    dataclass instances and compare with the generated [__eq__]: two
    instances of the same class are equal when the tuples of their field
    values are equal ([(self.f1, ...) == (other.f1, ...)], as the
    [dataclasses] module generates it), and instances of different classes
    fall back to identity.  Tuples, lists and dicts compare item by item,
    trying identity first ([PyObject_RichCompareBool]).  The recursion
    follows references, so on a cyclic graph it can exceed the interpreter's
    recursion limit; the limit is the fuel [n] and running out of it is
    [RecursionError]. *)

(** One item comparison of a container: identity, then [==]. *)
Definition item_eq (eq : value -> value -> result bool) (x y : value)
  : result bool :=
  if identical x y then Ok true else eq x y.

(** Tuple or list comparison, item by item from the left. *)
Fixpoint seq_eq (eq : value -> value -> result bool) (l1 l2 : list value)
  : result bool :=
  match l1, l2 with
  | [], [] => Ok true
  | x :: l1, y :: l2 =>
      match item_eq eq x y with
      | Ok true => seq_eq eq l1 l2
      | r => r
      end
  | _, _ => Ok false
  end.

Fixpoint assoc (k : string) (d : list (string * value)) : option value :=
  match d with
  | [] => None
  | (k', v) :: d => if String.eqb k k' then Some v else assoc k d
  end.

(** Dict comparison: every key of the left is a key of the right with an
    equal value (lengths are compared first, by the caller). *)
Fixpoint dict_eq (eq : value -> value -> result bool)
    (d1 d2 : list (string * value)) : result bool :=
  match d1 with
  | [] => Ok true
  | (k, v) :: d1 =>
      match assoc k d2 with
      | None => Ok false
      | Some w =>
          match item_eq eq v w with
          | Ok true => dict_eq eq d1 d2
          | r => r
          end
      end
  end.

(** The tuple [(o.f1, o.f2, ...)] the generated [__eq__] builds. *)
Fixpoint astuple (h : heap) (o : oid) (names : list string)
  : result (list value) :=
  match names with
  | [] => Ok []
  | f :: names =>
      match getattr h o f with
      | None => Raise (AttributeError f)
      | Some v =>
          match astuple h o names with
          | Ok vs => Ok (v :: vs)
          | Raise e => Raise e
          end
      end
  end.

Section comparison.
(** [dataclass_fields]: the names of the fields of a class, in
    declaration order. *)
Variable dataclass_fields : string -> list string.

(** [x == y] with [n] frames of stack left. *)
Fixpoint py_eq (n : nat) (h : heap) (x y : value) : result bool :=
  match n with
  | O => Raise RecursionError
  | S n =>
      match x, y with
      | VNone, VNone => Ok true
      | VInt a, VInt b => Ok (Z.eqb a b)
      | VStr a, VStr b => Ok (String.eqb a b)
      | VObj o1, VObj o2 =>
          if String.eqb (class_of h o1) (class_of h o2) then
            (* [(self.f1, ...) == (other.f1, ...)] *)
            match astuple h o1 (dataclass_fields (class_of h o1)) with
            | Raise e => Raise e
            | Ok t1 =>
                match astuple h o2 (dataclass_fields (class_of h o2)) with
                | Raise e => Raise e
                | Ok t2 => seq_eq (py_eq n h) t1 t2
                end
            end
          else
            (* both [__eq__] return [NotImplemented]: identity *)
            Ok (Nat.eqb o1 o2)
      | _, _ =>
          match as_list x, as_list y with
          | Some l1, Some l2 =>
              if Nat.eqb (length l1) (length l2)
              then seq_eq (py_eq n h) l1 l2
              else Ok false
          | _, _ =>
              match as_dict x, as_dict y with
              | Some d1, Some d2 =>
                  if Nat.eqb (length d1) (length d2)
                  then dict_eq (py_eq n h) d1 d2
                  else Ok false
              | _, _ => Ok false
              end
          end
      end
  end.

(** [x != y]: the inverse of [x == y]. *)
Definition py_ne (n : nat) (h : heap) (x y : value) : result bool :=
  match py_eq n h x y with
  | Ok b => Ok (negb b)
  | Raise e => Raise e
  end.

(** [x in l]: some item of [l] is [x] or equals [x]; items are tried from
    the left and the first match ends the search. *)
Fixpoint py_in (n : nat) (h : heap) (x : value) (l : list value)
  : result bool :=
  match l with
  | [] => Ok false
  | y :: l =>
      match item_eq (py_eq n h) y x with
      | Ok true => Ok true
      | Ok false => py_in n h x l
      | Raise e => Raise e
      end
  end.
End comparison.

(** ** Field descriptors ([jsonclasses.fields]) *)

(** Modelled from the spec: the members of [FieldType] other than [INSTANCE]
    and [LIST], which are the two the source tests for. *)
Inductive FieldType : Type := SCALAR | INSTANCE | LIST | DICT.

(** Modelled from the spec: [PLAIN] stands for every storage that is neither
    [LOCAL_KEY] nor [FOREIGN_KEY]. *)
Inductive FieldStorage : Type := PLAIN | LOCAL_KEY | FOREIGN_KEY.

Record FieldDescription : Type := mkFieldDescription {
  field_type : FieldType;
  field_storage : FieldStorage
}.

Record Field : Type := mkField {
  field_name : string;
  field_description : FieldDescription
}.

Definition is_key_storage (s : FieldStorage) : bool :=
  match s with
  | LOCAL_KEY | FOREIGN_KEY => true
  | PLAIN => false
  end.

(** ** Outcomes of a call: a returned value or an exception, each with the
    state it leaves behind *)

Inductive outcome (S A : Type) : Type :=
  | Returns (a : A) (s : S)
  | Raises (e : exn) (s : S).
Arguments Returns {S A} a s.
Arguments Raises {S A} e s.

Definition state_of {S A : Type} (r : outcome S A) : S :=
  match r with
  | Returns _ s => s
  | Raises _ s => s
  end.

(** Modelled from the spec: [OwnedList.append], whose class is not in this
    file.  It appends to the backing list and then notifies the owner with
    [owner.__olist_add__], which [JSONObject] defines as [pass]
    (lines 193-194); owner and keypath stay as they are. *)
Definition append (v : value) (x : value) : value :=
  match v with
  | VList l => VList (l ++ [x])
  | VOwnedList o p l => VOwnedList o p (l ++ [x])
  | v => v
  end.

(** ** [JSONObject.__setattr__] (lines 154-184) *)

Section JSONObject_setattr.
(** [fields(self)]: the field descriptors of a class, in declaration
    order.  The table is built by the class decorator and only read
    here. *)
Variable fields : string -> list Field.
(** [other_field(self, value, sfield)]: the descriptor on the class of
    [value] that is paired with [sfield], if any.  It is resolved from the
    two classes. *)
Variable other_field : string -> string -> Field -> option Field.
(** The interpreter's recursion limit seen by a comparison. *)
Variable recursion_limit : nat.

(** The dataclass fields of a class are its declared fields. *)
Definition dataclass_fields (c : string) : list string :=
  map field_name (fields c).

(** [next(f for f in fields(self) if f.field_name == name)]; [None] is
    the exhausted generator, on which [next] raises [StopIteration]. *)
Definition find_field (c : string) (name : string) : option Field :=
  List.find (fun f => String.eqb (field_name f) name) (fields c).

(** [self.name = value], with [depth] nested assignments allowed; [None]
    when [depth] is used up.  Reading an attribute that the other instance
    has no entry for is taken to fail: from construction on, an instance has
    an entry for every declared field. *)
Fixpoint __setattr__ (depth : nat) (h : heap) (self : oid) (name : string)
    (value : value) : option (outcome heap unit) :=
  match depth with
  | O => None
  | S depth =>
      match value with
      | VList l | VOwnedList _ _ l =>
          Some (Returns tt (store h self name (VOwnedList self name l)))
      | VDict d | VOwnedDict _ _ d =>
          Some (Returns tt (store h self name (VOwnedDict self name d)))
      | VObj v =>
          let h := store h self name value in
          match find_field (class_of h self) name with
          | None => Some (Raises StopIteration h)
          | Some sfield =>
              let fdesc := field_description sfield in
              let fstore := field_storage fdesc in
              if is_key_storage fstore then
                match other_field (class_of h self) (class_of h v) sfield with
                | None => Some (Returns tt h)
                | Some ofield =>
                    match field_type (field_description ofield) with
                    | INSTANCE =>
                        match getattr h v (field_name ofield) with
                        | None =>
                            Some (Raises (AttributeError (field_name ofield)) h)
                        | Some cur =>
                            match py_ne dataclass_fields recursion_limit h
                                        cur (VObj self) with
                            | Raise e => Some (Raises e h)
                            | Ok true =>
                                __setattr__ depth h v (field_name ofield)
                                            (VObj self)
                            | Ok false => Some (Returns tt h)
                            end
                        end
                    | LIST =>
                        match getattr h v (field_name ofield) with
                        | None =>
                            Some (Raises (AttributeError (field_name ofield)) h)
                        | Some cur =>
                            match as_list cur with
                            | None =>
                                __setattr__ depth h v (field_name ofield)
                                            (VList [VObj self])
                            | Some l =>
                                match py_in dataclass_fields recursion_limit h
                                            (VObj self) l with
                                | Raise e => Some (Raises e h)
                                | Ok true => Some (Returns tt h)
                                | Ok false =>
                                    Some (Returns tt
                                            (store h v (field_name ofield)
                                                   (append cur (VObj self))))
                                end
                            end
                        end
                    | _ => Some (Returns tt h)
                    end
                end
              else Some (Returns tt h)
          end
      | _ => Some (Returns tt (store h self name value))
      end
  end.

(** *** [JSONObject.update] (lines 75-93) *)

(** [sep.join(l)] *)
Fixpoint join (sep : string) (l : list string) : string :=
  match l with
  | [] => ""
  | x :: l' =>
      match l' with
      | [] => x
      | _ => x +:+ sep +:+ join sep l'
      end
  end.

(** [set(kwargs.keys()) - set(self.__dict__.keys())].  A Python set has no
    specified iteration order; neither has [elements] of a [gset]. *)
Definition unallowed_keys (h : heap) (self : oid)
    (kwargs : list (string * value)) : gset string :=
  list_to_set (map fst kwargs) ∖ dom (obj_dict (h self)).

(** The f-string of lines 89-90. *)
Definition not_allowed_message (keys_list : string) (cls : string)
  : string :=
  "`" +:+ keys_list +:+ "` not allowed in " +:+ cls +:+ ".".

(** [for key, item in kwargs.items(): setattr(self, key, item)].  The keyed
    input is the list of its items in insertion order; a Python mapping has
    each key once. *)
Fixpoint assign_all (depth : nat) (h : heap) (self : oid)
    (items : list (string * value)) : option (outcome heap unit) :=
  match items with
  | [] => Some (Returns tt h)
  | (key, item) :: items =>
      match __setattr__ depth h self key item with
      | None => None
      | Some (Returns _ h) => assign_all depth h self items
      | Some (Raises e h) => Some (Raises e h)
      end
  end.

Definition update (depth : nat) (h : heap) (self : oid)
    (kwargs : list (string * value)) : option (outcome heap oid) :=
  let unallowed := unallowed_keys h self kwargs in
  let unallowed_keys_length := size unallowed in
  if Nat.ltb 0 unallowed_keys_length then
    let keys_list := join ", " (elements unallowed) in
    Some (Raises (ValueError (not_allowed_message keys_list (class_of h self)))
                 h)
  else
    match assign_all depth h self kwargs with
    | None => None
    | Some (Returns _ h) => Some (Returns self h)
    | Some (Raises e h) => Some (Raises e h)
    end.
End JSONObject_setattr.

(** ** The top-level operations and their traversal contexts *)

(** Modelled from the spec: a [LookupMap] object, whose class is not in this
    file.  Only its identity matters here: the number of lookup maps
    constructed before it. *)
Record LookupMap : Type := mkLookupMap { lookup_map_id : nat }.

(** The instances together with the count of [LookupMap] objects
    constructed so far. *)
Record world : Type := mkWorld {
  objects : heap;
  lookup_maps : nat
}.

(** [LookupMap()]: construct a new, empty lookup map. *)
Definition new_LookupMap (w : world) : LookupMap * world :=
  (mkLookupMap (lookup_maps w),
   mkWorld (objects w) (S (lookup_maps w))).

Section JSONObject_operations.
(** [Config], an opaque per-class record ([self.__class__.config]). *)
Variable Config : Type.
Variable config : string -> Config.

Record TransformingContext : Type := mkTransformingContext {
  t_value : list (string * value);
  t_keypath_root : string;
  t_root : oid;
  t_config_root : Config;
  t_keypath_owner : string;
  t_owner : oid;
  t_config_owner : Config;
  t_keypath_parent : string;
  t_parent : oid;
  t_field_description : option FieldDescription;
  t_all_fields : bool;
  t_dest : oid;
  t_fill_dest_blanks : bool;
  t_lookup_map : LookupMap
}.

Record ValidatingContext : Type := mkValidatingContext {
  v_value : oid;
  v_keypath_root : string;
  v_root : oid;
  v_config_root : Config;
  v_keypath_owner : string;
  v_owner : oid;
  v_config_owner : Config;
  v_keypath_parent : string;
  v_parent : oid;
  v_field_description : option FieldDescription;
  v_all_fields : option bool;
  v_lookup_map : LookupMap
}.

Record ToJSONContext : Type := mkToJSONContext {
  j_value : oid;
  j_config : Config;
  j_ignore_writeonly : bool
}.

(** [InstanceOfValidator(cls)] and its three traversals, which live outside
    this file. *)
Variable validator_transform :
  string -> TransformingContext -> world -> outcome world unit.
Variable validator_validate :
  string -> ValidatingContext -> world -> outcome world unit.
Variable validator_tojson :
  string -> ToJSONContext -> world -> outcome world value.

Variable fields : string -> list Field.

(** [JSONObject.__set] (lines 54-73) *)
Definition __set (w : world) (self : oid) (fill_blanks : bool)
    (kwargs : list (string * value)) : outcome world unit :=
  let cls := class_of (objects w) self in
  let config := config cls in
  let (lookup_map, w) := new_LookupMap w in
  let context :=
    mkTransformingContext kwargs "" self config "" self config "" self
      None true self fill_blanks lookup_map in
  validator_transform cls context w.

(** The call [self.__set(fill_blanks=b, **kwargs)] of lines 41 and 51.  The
    keyed input is spread into the call beside the keyword [fill_blanks], so
    an input that has the key [fill_blanks] itself gives that parameter two
    values: the call raises [TypeError] and the body of [__set] does not
    run.  (The key [self] cannot be in [kwargs]: the caller's own call is
    refused with it.) *)
Definition __set_call (w : world) (self : oid) (fill_blanks : bool)
    (kwargs : list (string * value)) : outcome world unit :=
  if existsb (fun kv => String.eqb (fst kv) "fill_blanks") kwargs
  then Raises TypeError w
  else __set w self fill_blanks kwargs.

(** [JSONObject.__init__] (lines 33-41).  Assigning [None] goes through
    [__setattr__], whose last branch stores it as it is. *)
Definition __init__ (w : world) (self : oid)
    (kwargs : list (string * value)) : outcome world unit :=
  let h :=
    fold_left (fun h name => store h self name VNone)
              (dataclass_fields fields (class_of (objects w) self))
              (objects w) in
  __set_call (mkWorld h (lookup_maps w)) self true kwargs.

(** [JSONObject.set] (lines 43-52) *)
Definition set (w : world) (self : oid) (kwargs : list (string * value))
  : outcome world oid :=
  match __set_call w self false kwargs with
  | Returns _ w => Returns self w
  | Raises e w => Raises e w
  end.

(** [JSONObject.tojson] (lines 95-110) *)
Definition tojson (w : world) (self : oid) (ignore_writeonly : bool)
  : outcome world value :=
  let cls := class_of (objects w) self in
  let config := config cls in
  let context := mkToJSONContext self config ignore_writeonly in
  validator_tojson cls context w.

(** [JSONObject.validate] (lines 112-139) *)
Definition validate (w : world) (self : oid) (all_fields : option bool)
  : outcome world oid :=
  let cls := class_of (objects w) self in
  let config := config cls in
  let (lookup_map, w) := new_LookupMap w in
  let context :=
    mkValidatingContext self "" self config "" self config "" self
      None all_fields lookup_map in
  match validator_validate cls context w with
  | Returns _ w => Returns self w
  | Raises e w => Raises e w
  end.

(** [JSONObject.is_valid] (lines 141-152) *)
Definition is_valid (w : world) (self : oid) : outcome world bool :=
  match validate w self (Some false) with
  | Raises ValidationException w => Returns false w
  | Raises e w => Raises e w
  | Returns _ w => Returns true w
  end.
End JSONObject_operations.

(** ** Notions used to state the properties *)

(** A traversal that may construct lookup maps of its own but never loses
    count of one: it ends with at least as many as it started with. *)
Definition keeps_lookup_maps {C A : Type}
    (traversal : string -> C -> world -> outcome world A) : Prop :=
  forall c ctx w, lookup_maps w <= lookup_maps (state_of (traversal c ctx w)).

(** Every declared field of [o] exists as an attribute, as [__init__]
    leaves it (lines 39-40). *)
Definition has_all_fields (fields : string -> list Field) (h : heap) (o : oid)
  : bool :=
  forallb (fun f => bool_decide (is_Some (getattr h o f)))
          (dataclass_fields fields (class_of h o)).

(** How many items of [l] are the object [x] itself. *)
Definition occurrences (x : value) (l : list value) : nat :=
  length (filter (fun y => identical x y = true) l).

(** [k] occurs in [msg] as a substring. *)
Definition occurs_in (k msg : string) : Prop :=
  exists pre post : string, msg = pre +:+ k +:+ post.

(** What [self.name = v] stores for a [v] that is not an instance: the
    owned wrapper of a list or dict, and [v] itself otherwise. *)
Definition stored_form (self : oid) (name : string) (v : value) : value :=
  match as_list v with
  | Some l => VOwnedList self name l
  | None =>
      match as_dict v with
      | Some d => VOwnedDict self name d
      | None => v
      end
  end.

(** The heap after assigning every item of [kwargs] in order, none of them
    an instance. *)
Definition assigned (self : oid) (kwargs : list (string * value)) (h : heap)
  : heap :=
  fold_left (fun h kv => store h self (fst kv) (stored_form self (fst kv) (snd kv)))
            kwargs h.

(** The descriptor that the back-assignment's own synchronization step
    resolves: [rel] gives its inverse field on the other class, and that
    field, as declared there, gives a field of the first class back. *)
Definition back_field (fields : string -> list Field)
    (other_field : string -> string -> Field -> option Field)
    (cA cB : string) (rel : string) : option Field :=
  match find_field fields cA rel with
  | None => None
  | Some sfield =>
      match other_field cA cB sfield with
      | None => None
      | Some ofield =>
          match find_field fields cB (field_name ofield) with
          | None => None
          | Some sfield2 => other_field cB cA sfield2
          end
      end
  end.

(** The inverse of the inverse of [rel], when there is one, is [rel]. *)
Definition paired_back (fields : string -> list Field)
    (other_field : string -> string -> Field -> option Field)
    (cA cB : string) (rel : string) : bool :=
  match back_field fields other_field cA cB rel with
  | None => true
  | Some back => String.eqb (field_name back) rel
  end.

(** The inverse of the inverse of [rel], when there is one, is [rel], and
    [rel] is not list-valued. *)
Definition mutually_paired (fields : string -> list Field)
    (other_field : string -> string -> Field -> option Field)
    (cA cB : string) (rel : string) : bool :=
  match back_field fields other_field cA cB rel with
  | None => true
  | Some back =>
      String.eqb (field_name back) rel &&
      match field_type (field_description back) with
      | LIST => false
      | _ => true
      end
  end.

(** ** A small schema used for the concrete checks

    [User] has one [Profile] (one-to-one) and many [Post]s (one-to-many):
    [Profile.user] and [Post.author] hold the local keys, [User.profile] and
    [User.posts] are their inverse sides. *)
Module Schema.
Definition name_f : Field := mkField "name" (mkFieldDescription SCALAR PLAIN).
Definition profile_f : Field :=
  mkField "profile" (mkFieldDescription INSTANCE FOREIGN_KEY).
Definition posts_f : Field :=
  mkField "posts" (mkFieldDescription LIST FOREIGN_KEY).
Definition user_f : Field :=
  mkField "user" (mkFieldDescription INSTANCE LOCAL_KEY).
Definition title_f : Field := mkField "title" (mkFieldDescription SCALAR PLAIN).
Definition author_f : Field :=
  mkField "author" (mkFieldDescription INSTANCE LOCAL_KEY).

Definition fields (c : string) : list Field :=
  if String.eqb c "User" then [name_f; profile_f; posts_f]
  else if String.eqb c "Profile" then [user_f]
  else if String.eqb c "Post" then [title_f; author_f]
  else [].

Definition other_field (c1 c2 : string) (f : Field) : option Field :=
  let n := field_name f in
  if String.eqb c1 "Profile" && String.eqb c2 "User" && String.eqb n "user"
  then Some profile_f
  else if String.eqb c1 "User" && String.eqb c2 "Profile"
          && String.eqb n "profile"
  then Some user_f
  else if String.eqb c1 "Post" && String.eqb c2 "User" && String.eqb n "author"
  then Some posts_f
  else if String.eqb c1 "User" && String.eqb c2 "Post" && String.eqb n "posts"
  then Some author_f
  else None.

Definition recursion_limit : nat := 1000.

(** A new instance of a class: every declared field present and [None]
    (lines 39-40). *)
Definition blank (c : string) : obj :=
  mkObj c (list_to_map (map (fun f => (field_name f, VNone)) (fields c))).

(** Addresses: a user, two profiles and two posts. *)
Definition user : oid := 1.
Definition profile1 : oid := 2.
Definition profile2 : oid := 3.
Definition post1 : oid := 4.
Definition post2 : oid := 5.

Definition h0 : heap :=
  fun o =>
    match o with
    | 1 => blank "User"
    | 2 | 3 => blank "Profile"
    | 4 | 5 => blank "Post"
    | _ => mkObj "object" ∅
    end.

Definition setattr := __setattr__ fields other_field recursion_limit.

(** [o.name = v] run from the heap an earlier statement left. *)
Definition then_setattr (r : option (outcome heap unit)) (o : oid)
    (name : string) (v : value) : option (outcome heap unit) :=
  match r with
  | Some (Returns _ h) => setattr 10 h o name v
  | r => r
  end.

Definition attr_after (r : option (outcome heap unit)) (o : oid)
    (name : string) : option value :=
  match r with
  | Some r => getattr (state_of r) o name
  | None => None
  end.

Definition returned (r : option (outcome heap unit)) : bool :=
  match r with
  | Some (Returns _ _) => true
  | _ => false
  end.

(** The class configuration is not looked at here. *)
Definition Config : Type := unit.
Definition config (c : string) : Config := tt.

(** Stand-ins for the three traversals of [InstanceOfValidator]: they
    construct no lookup map of their own and leave the instances as they
    are; validation fails on an instance that has a declared field still
    [None]. *)
Definition engine_transform (c : string) (ctx : TransformingContext Config)
    (w : world) : outcome world unit :=
  Returns tt w.

Definition engine_validate (c : string) (ctx : ValidatingContext Config)
    (w : world) : outcome world unit :=
  if forallb (fun f =>
                match getattr (objects w) (v_value Config ctx) f with
                | Some VNone | None => false
                | Some _ => true
                end)
             (dataclass_fields fields c)
  then Returns tt w
  else Raises ValidationException w.

Definition engine_tojson (c : string) (ctx : ToJSONContext Config)
    (w : world) : outcome world value :=
  Returns (VDict []) w.

(** A stand-in for the validation of a value nested deeper than the
    interpreter's stack allows: the traversal recurses through the nested
    values and ends in [RecursionError]. *)
Definition engine_validate_overflow (c : string)
    (ctx : ValidatingContext Config) (w : world) : outcome world unit :=
  Raises RecursionError w.

(** The heap after [post1.title = "x"; post1.author = user]. *)
Definition h_one_post : heap :=
  store (store (store h0 post1 "title" (VStr "x")) post1 "author" (VObj user))
        user "posts" (VOwnedList user "posts" [VObj post1]).

(** [post1] after [post1.nope = None]: an attribute that is no declared
    field. *)
Definition h_extra : heap := store h0 post1 "nope" VNone.

Definition w0 : world := mkWorld h0 0.

(** A profile whose only field is filled in. *)
Definition w1 : world := mkWorld (store h0 profile1 "user" (VObj user)) 0.
End Schema.

(** ** A second user, for the checks that relink an instance *)
Module Relink.
Definition user2 : oid := 6.

Definition h0 : heap :=
  fun o =>
    match o with
    | 6 => Schema.blank "User"
    | _ => Schema.h0 o
    end.

(** The heap after [post1.author = user]. *)
Definition h_linked : heap :=
  store (store h0 Schema.post1 "author" (VObj Schema.user))
        Schema.user "posts"
        (VOwnedList Schema.user "posts" [VObj Schema.post1]).
End Relink.

(** ** Notions used to state further properties *)

(** Every list or dict held in an attribute is an owned collection that
    names its holder as owner and the attribute as keypath. *)
Definition well_owned (h : heap) : Prop :=
  forall o n v, getattr h o n = Some v ->
    match v with
    | VOwnedList owner keypath _ | VOwnedDict owner keypath _ =>
        owner = o /\ keypath = n
    | VList _ | VDict _ => False
    | _ => True
    end.

(** Two heaps hold the same attribute values. *)
Definition same_attributes (h1 h2 : heap) : Prop :=
  forall o n, getattr h1 o n = getattr h2 o n.

(** The heap [__init__] hands to the transformation: every declared field
    of [self] assigned [None] (lines 39-40). *)
Definition blanked (fields : string -> list Field) (h : heap) (self : oid)
  : heap :=
  fold_left (fun h name => store h self name VNone)
            (dataclass_fields fields (class_of h self)) h.

Lemma identical_refl (v : value) : identical v v = true.
Proof.
  induction v as [ | z | s | o | l IH | d IH | o p l IH | o p d IH ]
    using value_ind; simpl.
  - reflexivity.
  - apply Z.eqb_refl.
  - apply String.eqb_refl.
  - apply Nat.eqb_refl.
  - induction IH as [ | x l Hx _ IHl ]; [ reflexivity | ].
    rewrite Hx. exact IHl.
  - induction IH as [ | [k x] d Hx _ IHd ]; [ reflexivity | ].
    simpl in Hx. rewrite String.eqb_refl, Hx. exact IHd.
  - rewrite Nat.eqb_refl, String.eqb_refl. simpl.
    induction IH as [ | x l Hx _ IHl ]; [ reflexivity | ].
    rewrite Hx. exact IHl.
  - rewrite Nat.eqb_refl, String.eqb_refl. simpl.
    induction IH as [ | [k x] d Hx _ IHd ]; [ reflexivity | ].
    simpl in Hx. rewrite String.eqb_refl, Hx. exact IHd.
Qed.


(** * Properties *)

(** ** The heap *)

Lemma class_of_store h o name v o' :
  class_of (store h o name v) o' = class_of h o'.
Proof.
  unfold class_of, store. destruct (Nat.eqb_spec o' o); subst; reflexivity.
Qed.

Lemma getattr_store_eq h o name v :
  getattr (store h o name v) o name = Some v.
Proof.
  unfold getattr, store. rewrite Nat.eqb_refl. simpl.
  apply lookup_insert_eq.
Qed.

Lemma getattr_store_ne h o name v o' name' :
  o' <> o \/ name' <> name ->
  getattr (store h o name v) o' name' = getattr h o' name'.
Proof.
  intros Hne. unfold getattr, store.
  destruct (Nat.eqb_spec o' o) as [-> | Ho]; [ | reflexivity ].
  simpl. destruct Hne as [Hne | Hne]; [ congruence | ].
  apply lookup_insert_ne. congruence.
Qed.

Lemma getattr_store_is_Some h o name v o' name' :
  is_Some (getattr h o' name') ->
  is_Some (getattr (store h o name v) o' name').
Proof.
  intros Hs. destruct (Nat.eq_dec o' o) as [-> | Ho].
  - destruct (String.string_dec name' name) as [-> | Hn].
    + rewrite getattr_store_eq. eauto.
    + rewrite getattr_store_ne; auto.
  - rewrite getattr_store_ne; auto.
Qed.

(** Assigning [None] to a list of names, as lines 39-40 do. *)
Lemma blank_fold_class names h self o :
  class_of (fold_left (fun h name => store h self name VNone) names h) o
  = class_of h o.
Proof.
  revert h. induction names as [ | x names IH ]; intros h; [ reflexivity | ].
  cbn [fold_left]. rewrite IH. apply class_of_store.
Qed.

Lemma blank_fold_other_object names h self o :
  o <> self ->
  fold_left (fun h name => store h self name VNone) names h o = h o.
Proof.
  intros Ho. revert h.
  induction names as [ | x names IH ]; intros h; [ reflexivity | ].
  cbn [fold_left]. rewrite IH. unfold store.
  destruct (Nat.eqb_spec o self); congruence.
Qed.

Lemma blank_fold_other_name names h self n :
  ~ In n names ->
  getattr (fold_left (fun h name => store h self name VNone) names h) self n
  = getattr h self n.
Proof.
  revert h. induction names as [ | x names IH ]; intros h Hn;
    [ reflexivity | ].
  cbn [fold_left]. simpl in Hn. rewrite IH by tauto.
  apply getattr_store_ne. right. intros ->. tauto.
Qed.

Lemma blank_fold_name names h self f :
  In f names ->
  getattr (fold_left (fun h name => store h self name VNone) names h) self f
  = Some VNone.
Proof.
  revert h. induction names as [ | x names IH ]; intros h Hin;
    [ destruct Hin | ].
  cbn [fold_left].
  destruct (in_dec String.string_dec f names) as [ Hrest | Hrest ].
  - apply IH. exact Hrest.
  - destruct Hin as [ -> | Hin ]; [ | contradiction ].
    rewrite blank_fold_other_name by exact Hrest.
    apply getattr_store_eq.
Qed.

(** ** Comparison *)

Lemma seq_eq_refl eq l : seq_eq eq l l = Ok true.
Proof.
  induction l as [ | x l IH ]; simpl; [ reflexivity | ].
  unfold item_eq. rewrite identical_refl. exact IH.
Qed.

Lemma identical_VObj o y : identical (VObj o) y = true -> y = VObj o.
Proof.
  destruct y; simpl; try discriminate.
  intros H. apply Nat.eqb_eq in H. congruence.
Qed.

Section comparison_facts.
Variable fields : string -> list Field.
#[local] Abbreviation dcf := (dataclass_fields fields).

Lemma astuple_ok h o names :
  (forall f, In f names -> is_Some (getattr h o f)) ->
  exists t, astuple h o names = Ok t.
Proof.
  induction names as [ | f names IH ]; intros Hall; simpl.
  - eauto.
  - destruct (Hall f (or_introl eq_refl)) as [v Hv]. rewrite Hv.
    destruct IH as [t Ht]; [ intros; apply Hall; right; assumption | ].
    rewrite Ht. eauto.
Qed.

Lemma has_all_fields_astuple h o :
  has_all_fields fields h o = true ->
  exists t, astuple h o (dcf (class_of h o)) = Ok t.
Proof.
  unfold has_all_fields. rewrite forallb_forall. intros Hall.
  apply astuple_ok. intros f Hf.
  specialize (Hall f Hf). apply bool_decide_eq_true in Hall. exact Hall.
Qed.

Lemma has_all_fields_store h o o' name v :
  has_all_fields fields h o = true ->
  has_all_fields fields (store h o' name v) o = true.
Proof.
  unfold has_all_fields. rewrite !forallb_forall, class_of_store.
  intros Hall f Hf. specialize (Hall f Hf).
  apply bool_decide_eq_true in Hall. apply bool_decide_eq_true.
  apply getattr_store_is_Some. exact Hall.
Qed.

(** An instance never compares unequal to itself. *)
Lemma py_eq_self n h o r :
  py_eq dcf n h (VObj o) (VObj o) = Ok r -> r = true.
Proof.
  destruct n as [ | n ]; simpl; [ discriminate | ].
  rewrite String.eqb_refl.
  destruct (astuple h o (dcf (class_of h o))) as [ t | e ];
    [ | discriminate ].
  rewrite seq_eq_refl. congruence.
Qed.

Lemma py_eq_self_ok n h o :
  has_all_fields fields h o = true ->
  py_eq dcf (S n) h (VObj o) (VObj o) = Ok true.
Proof.
  intros Hall. simpl. rewrite String.eqb_refl.
  destruct (has_all_fields_astuple h o Hall) as [t ->].
  apply seq_eq_refl.
Qed.

Lemma py_ne_self n h o : py_ne dcf n h (VObj o) (VObj o) <> Ok true.
Proof.
  unfold py_ne.
  destruct (py_eq dcf n h (VObj o) (VObj o)) as [ r | e ] eqn:E;
    [ | discriminate ].
  apply py_eq_self in E. subst r. discriminate.
Qed.


(** The search is by [==]: what is not found is not there by identity. *)
Lemma py_in_false_occurrences n h o l :
  py_in dcf n h (VObj o) l = Ok false -> occurrences (VObj o) l = 0.
Proof.
  intros Hin. unfold occurrences.
  induction l as [ | y l IH ]; [ reflexivity | ].
  simpl in Hin. unfold item_eq in Hin.
  rewrite filter_cons.
  destruct (decide (identical (VObj o) y = true)) as [Hid | Hid].
  - apply identical_VObj in Hid. subst y.
    rewrite identical_refl in Hin. discriminate.
  - destruct (identical y (VObj o)); [ discriminate | ].
    destruct (py_eq dcf n h y (VObj o)) as [ [ | ] | e ];
      try discriminate.
    apply IH. exact Hin.
Qed.


End comparison_facts.

(** ** Attribute interception *)

#[local] Ltac same_outcome := split; [ reflexivity | discriminate ].
#[local] Ltac same_outcome_at H :=
  split; [ reflexivity
         | split; [ discriminate
                  | intros ? Hout; injection Hout as <-; exact H ] ].

#[local] Ltac split_setattr H :=
  repeat match type of H with
         | context [match ?x with _ => _ end] => destruct x eqn:?
         end.

Section setattr_facts.
Variable fields : string -> list Field.
Variable other_field : string -> string -> Field -> option Field.
Variable limit : nat.
#[local] Abbreviation dcf := (dataclass_fields fields).
#[local] Abbreviation setattr := (__setattr__ fields other_field limit).

Lemma find_field_name c name f :
  find_field fields c name = Some f -> field_name f = name.
Proof.
  unfold find_field. intros Hf. apply find_some in Hf as [_ Hf].
  apply String.eqb_eq. exact Hf.
Qed.

(** C10, as the code has it.  Assigning an instance under a name that no
    field descriptor of the class carries raises [StopIteration] out of the
    hook, after the value has been stored: the store (line 166) comes before
    the lookup (line 169). *)
Theorem setattr_undeclared_instance d h self name b :
  find_field fields (class_of h self) name = None ->
  setattr (S d) h self name (VObj b)
  = Some (Raises StopIteration (store h self name (VObj b)))
  /\ getattr (store h self name (VObj b)) self name = Some (VObj b).
Proof.
  intros Hnone. split; [ | apply getattr_store_eq ].
  simpl. rewrite class_of_store, Hnone. reflexivity.
Qed.

(** The synchronization step spelled out for a single-valued inverse. *)
Lemma sync_instance_unfold d h a b rel sfield ofield cur :
  find_field fields (class_of h a) rel = Some sfield ->
  is_key_storage (field_storage (field_description sfield)) = true ->
  other_field (class_of h a) (class_of h b) sfield = Some ofield ->
  field_type (field_description ofield) = INSTANCE ->
  getattr (store h a rel (VObj b)) b (field_name ofield) = Some cur ->
  setattr (S d) h a rel (VObj b)
  = match py_ne dcf limit (store h a rel (VObj b)) cur (VObj a) with
    | Raise e => Some (Raises e (store h a rel (VObj b)))
    | Ok true =>
        setattr d (store h a rel (VObj b)) b (field_name ofield) (VObj a)
    | Ok false => Some (Returns tt (store h a rel (VObj b)))
    end.
Proof.
  intros Hs Hk Ho Ht Hcur. cbn [__setattr__].
  rewrite !class_of_store, Hs. cbn zeta. rewrite Hk, Ho, Ht, Hcur.
  reflexivity.
Qed.


(** The back-assignment [b.inv = a] of a one-to-one pair, run when the
    forward link [a.rel = b] is already stored: it stores [a] and stops,
    because its own synchronization step finds [a.rel] to be [b]. *)
Lemma back_assignment_returns d h1 a b rel inv sfield sfield2 :
  getattr h1 a rel = Some (VObj b) ->
  find_field fields (class_of h1 b) inv = Some sfield2 ->
  other_field (class_of h1 b) (class_of h1 a) sfield2 = Some sfield ->
  field_name sfield = rel ->
  field_type (field_description sfield) = INSTANCE ->
  has_all_fields fields h1 b = true ->
  0 < limit ->
  setattr (S d) h1 b inv (VObj a)
  = Some (Returns tt (store h1 b inv (VObj a))).
Proof.
  intros Hfwd Hs2 Hback Hname Hty Hall Hlim. cbn [__setattr__].
  rewrite !class_of_store, Hs2. cbn zeta.
  destruct (is_key_storage _); [ | reflexivity ].
  rewrite Hback, Hty, Hname.
  assert (Hrel : getattr (store h1 b inv (VObj a)) a rel = Some (VObj b)).
  { destruct (Nat.eq_dec a b) as [ <- | Hab ].
    - destruct (String.string_dec rel inv) as [ <- | Hn ].
      + apply getattr_store_eq.
      + rewrite getattr_store_ne; auto.
    - rewrite getattr_store_ne; auto. }
  rewrite Hrel. unfold py_ne.
  destruct limit as [ | n ]; [ lia | ].
  rewrite py_eq_self_ok; [ reflexivity | ].
  apply has_all_fields_store. exact Hall.
Qed.

Lemma back_field_resolved cA cB rel sf ofield sf2 back :
  find_field fields cA rel = Some sf ->
  other_field cA cB sf = Some ofield ->
  find_field fields cB (field_name ofield) = Some sf2 ->
  other_field cB cA sf2 = Some back ->
  back_field fields other_field cA cB rel = Some back.
Proof.
  unfold back_field. intros Hs Ho Hs2 Hb. rewrite Hs, Ho, Hs2, Hb.
  reflexivity.
Qed.

Lemma paired_back_name cA cB rel back :
  paired_back fields other_field cA cB rel = true ->
  back_field fields other_field cA cB rel = Some back ->
  field_name back = rel.
Proof.
  unfold paired_back. intros Hp Hb. rewrite Hb in Hp.
  apply String.eqb_eq. exact Hp.
Qed.

Lemma mutually_paired_back cA cB rel back :
  mutually_paired fields other_field cA cB rel = true ->
  back_field fields other_field cA cB rel = Some back ->
  field_name back = rel /\ field_type (field_description back) <> LIST.
Proof.
  unfold mutually_paired. intros Hmp Hb. rewrite Hb in Hmp.
  apply andb_true_iff in Hmp as [Hn Ht]. split.
  - apply String.eqb_eq. exact Hn.
  - intros Hl. rewrite Hl in Ht. discriminate.
Qed.

(** After the back-assignment has stored [a] in [b.inv], the forward link
    [a.rel] still holds [b]. *)
Lemma forward_link_in_place h a b rel inv :
  getattr (store (store h a rel (VObj b)) b inv (VObj a)) a rel
  = Some (VObj b).
Proof.
  destruct (Nat.eq_dec a b) as [ <- | Hab ].
  - destruct (String.string_dec rel inv) as [ <- | Hne ].
    + apply getattr_store_eq.
    + rewrite getattr_store_ne by auto. apply getattr_store_eq.
  - rewrite getattr_store_ne by auto. apply getattr_store_eq.
Qed.

(** With [rel] paired back by name, three calls are enough. *)
Lemma sync_paired_bound d h a b rel :
  paired_back fields other_field (class_of h a) (class_of h b) rel = true ->
  setattr (S (S (S d))) h a rel (VObj b) = setattr 3 h a rel (VObj b)
  /\ setattr 3 h a rel (VObj b) <> None.
Proof.
  intros Hp.
  cbn [__setattr__]. rewrite !class_of_store.
  destruct (find_field fields (class_of h a) rel) as [ sf | ] eqn:Hs;
    [ | same_outcome ].
  destruct (is_key_storage _); [ | same_outcome ].
  destruct (other_field (class_of h a) (class_of h b) sf)
    as [ ofield | ] eqn:Ho; [ | same_outcome ].
  destruct (field_type (field_description ofield)); try same_outcome.
  - (* single-valued inverse *)
    destruct (getattr _ b (field_name ofield)) as [ cur | ];
      [ | same_outcome ].
    destruct (py_ne dcf limit _ cur (VObj a)) as [ [ | ] | e ];
      try same_outcome.
    rewrite !class_of_store.
    destruct (find_field fields (class_of h b) (field_name ofield))
      as [ sf2 | ] eqn:Hs2; [ | same_outcome ].
    destruct (is_key_storage _); [ | same_outcome ].
    destruct (other_field (class_of h b) (class_of h a) sf2)
      as [ back | ] eqn:Hb; [ | same_outcome ].
    pose proof (paired_back_name _ _ _ _ Hp
                  (back_field_resolved _ _ _ _ _ _ _ Hs Ho Hs2 Hb)) as Hn.
    rewrite Hn, forward_link_in_place.
    destruct (field_type (field_description back)); try same_outcome.
    destruct (py_ne dcf limit _ (VObj b) (VObj b)) as [ [ | ] | e ] eqn:E;
      try same_outcome.
    exfalso. exact (py_ne_self fields limit _ b E).
  - (* list-valued inverse *)
    destruct (getattr _ b (field_name ofield)) as [ cur | ];
      [ | same_outcome ].
    destruct (as_list cur) as [ l | ]; [ | same_outcome ].
    destruct (py_in dcf limit _ (VObj a) l) as [ [ | ] | e ]; same_outcome.
Qed.

(** With [rel] paired back and not list-valued, two calls are enough, and
    whatever the outcome [a.rel] holds [b] at the end. *)
Lemma sync_mutually_paired_bound d h a b rel :
  mutually_paired fields other_field (class_of h a) (class_of h b) rel = true ->
  setattr (S (S d)) h a rel (VObj b) = setattr 2 h a rel (VObj b)
  /\ setattr 2 h a rel (VObj b) <> None
  /\ forall out, setattr 2 h a rel (VObj b) = Some out ->
                 getattr (state_of out) a rel = Some (VObj b).
Proof.
  intros Hmp.
  pose proof (getattr_store_eq h a rel (VObj b)) as Hst.
  cbn [__setattr__]. rewrite !class_of_store.
  destruct (find_field fields (class_of h a) rel) as [ sf | ] eqn:Hs;
    [ | same_outcome_at Hst ].
  destruct (is_key_storage _); [ | same_outcome_at Hst ].
  destruct (other_field (class_of h a) (class_of h b) sf)
    as [ ofield | ] eqn:Ho; [ | same_outcome_at Hst ].
  destruct (field_type (field_description ofield)) eqn:Hty;
    try same_outcome_at Hst.
  - (* single-valued inverse *)
    destruct (getattr _ b (field_name ofield)) as [ cur | ];
      [ | same_outcome_at Hst ].
    destruct (py_ne dcf limit _ cur (VObj a)) as [ [ | ] | e ];
      try same_outcome_at Hst.
    rewrite !class_of_store.
    pose proof (forward_link_in_place h a b rel (field_name ofield)) as Hrel.
    destruct (find_field fields (class_of h b) (field_name ofield))
      as [ sf2 | ] eqn:Hs2; [ | same_outcome_at Hrel ].
    destruct (is_key_storage _); [ | same_outcome_at Hrel ].
    destruct (other_field (class_of h b) (class_of h a) sf2)
      as [ back | ] eqn:Hb; [ | same_outcome_at Hrel ].
    destruct (mutually_paired_back _ _ _ _ Hmp
                (back_field_resolved _ _ _ _ _ _ _ Hs Ho Hs2 Hb))
      as [Hn Hnl].
    rewrite Hn, Hrel.
    destruct (field_type (field_description back));
      try same_outcome_at Hrel; [ | congruence ].
    destruct (py_ne dcf limit _ (VObj b) (VObj b)) as [ [ | ] | e ] eqn:E;
      try same_outcome_at Hrel.
    exfalso. exact (py_ne_self fields limit _ b E).
  - (* list-valued inverse *)
    destruct (getattr _ b (field_name ofield)) as [ cur | ] eqn:Hcur;
      [ | same_outcome_at Hst ].
    assert (Hother : forall v,
              getattr (store (store h a rel (VObj b)) b (field_name ofield) v)
                      a rel = Some (VObj b)).
    { intros v. rewrite getattr_store_ne; [ exact Hst | ].
      destruct (Nat.eq_dec a b) as [ Hab | ]; [ | auto ].
      destruct (String.string_dec rel (field_name ofield)) as [ Hn | ];
        [ | auto ].
      exfalso. subst b.
      assert (Hs2 : find_field fields (class_of h a) (field_name ofield)
                    = Some sf) by (rewrite <- Hn; exact Hs).
      destruct (mutually_paired_back _ _ _ _ Hmp
                  (back_field_resolved _ _ _ _ _ _ _ Hs Ho Hs2 Ho))
        as [_ Hnl].
      congruence. }
    destruct (as_list cur) as [ l | ]; [ | same_outcome_at (Hother (VOwnedList b (field_name ofield) [VObj a])) ].
    destruct (py_in dcf limit _ (VObj a) l) as [ [ | ] | e ];
      first [ same_outcome_at Hst
            | same_outcome_at (Hother (append cur (VObj a))) ].
Qed.



(** C9, as the code has it.  When the inverse of [rel] is paired back with
    [rel], the assignment [a.rel = b] ends after at most two nested
    assignments, and more room does not change the outcome; when moreover
    [rel] is not list-valued it ends after at most one, because the
    back-assignment's own step finds [a.rel] to be [b]. *)
Theorem setattr_sync_terminates d h a b rel :
  paired_back fields other_field (class_of h a) (class_of h b) rel = true ->
  (exists out,
     setattr 3 h a rel (VObj b) = Some out
     /\ setattr (S (S (S d))) h a rel (VObj b) = Some out)
  /\ (mutually_paired fields other_field (class_of h a) (class_of h b) rel
      = true ->
      exists out,
        setattr 2 h a rel (VObj b) = Some out
        /\ setattr (S (S d)) h a rel (VObj b) = Some out).
Proof.
  intros Hp. split.
  - destruct (sync_paired_bound d h a b rel Hp) as [Heq Hsome].
    destruct (setattr 3 h a rel (VObj b)) as [ out | ]; [ | congruence ].
    exists out. split; [ reflexivity | exact Heq ].
  - intros Hmp.
    destruct (sync_mutually_paired_bound d h a b rel Hmp)
      as (Heq & Hsome & _).
    destruct (setattr 2 h a rel (VObj b)) as [ out | ]; [ | congruence ].
    exists out. split; [ reflexivity | exact Heq ].
Qed.
End setattr_facts.

(** ** Strings *)

Lemma append_assoc (s1 s2 s3 : string) :
  (s1 +:+ s2) +:+ s3 = s1 +:+ (s2 +:+ s3).
Proof.
  induction s1 as [ | c s1 IH ]; [ reflexivity | ].
  change (String c ((s1 +:+ s2) +:+ s3) = String c (s1 +:+ (s2 +:+ s3))).
  f_equal. exact IH.
Qed.

Lemma append_nil_r (s : string) : s +:+ "" = s.
Proof.
  induction s as [ | c s IH ]; [ reflexivity | ].
  change (String c (s +:+ "") = String c s).
  f_equal. exact IH.
Qed.

Lemma occurs_in_self k : occurs_in k k.
Proof.
  exists "", "". change ("" +:+ k +:+ "") with (k +:+ "").
  rewrite append_nil_r. reflexivity.
Qed.

Lemma occurs_in_after k pre msg : occurs_in k msg -> occurs_in k (pre +:+ msg).
Proof.
  intros (p & q & ->). exists (pre +:+ p), q.
  rewrite append_assoc. reflexivity.
Qed.

Lemma occurs_in_before k msg post :
  occurs_in k msg -> occurs_in k (msg +:+ post).
Proof.
  intros (p & q & ->). exists p, (q +:+ post).
  rewrite !append_assoc. reflexivity.
Qed.

Lemma join_occurs sep k l : In k l -> occurs_in k (join sep l).
Proof.
  induction l as [ | x l IH ]; intros Hin; [ destruct Hin | ].
  destruct Hin as [ -> | Hin ].
  - destruct l as [ | y l ]; [ apply occurs_in_self | ].
    change (join sep (k :: y :: l)) with (k +:+ sep +:+ join sep (y :: l)).
    apply occurs_in_before, occurs_in_self.
  - destruct l as [ | y l ]; [ destruct Hin | ].
    change (join sep (x :: y :: l)) with (x +:+ sep +:+ join sep (y :: l)).
    apply occurs_in_after, occurs_in_after, IH, Hin.
Qed.

Lemma not_allowed_message_occurs k keys cls :
  In k keys -> occurs_in k (not_allowed_message (join ", " keys) cls).
Proof.
  intros Hin. unfold not_allowed_message.
  apply occurs_in_after, occurs_in_before, join_occurs, Hin.
Qed.

(** ** Batch update *)



Section update_facts.
Variable fields : string -> list Field.
Variable other_field : string -> string -> Field -> option Field.
Variable limit : nat.
#[local] Abbreviation setattr := (__setattr__ fields other_field limit).
#[local] Abbreviation assign := (assign_all fields other_field limit).
#[local] Abbreviation upd := (update fields other_field limit).

Lemma elem_of_unallowed_keys h self kwargs k :
  k ∈ unallowed_keys h self kwargs
  <-> In k (map fst kwargs) /\ getattr h self k = None.
Proof.
  unfold unallowed_keys, getattr.
  rewrite elem_of_difference, elem_of_list_to_set, list_elem_of_In,
    not_elem_of_dom.
  reflexivity.
Qed.

Lemma update_rejects h self kwargs d :
  (exists k, In k (map fst kwargs) /\ getattr h self k = None) ->
  upd d h self kwargs
  = Some (Raises (ValueError
                    (not_allowed_message
                       (join ", " (elements (unallowed_keys h self kwargs)))
                       (class_of h self))) h).
Proof.
  intros (k & Hk). apply elem_of_unallowed_keys in Hk.
  unfold update.
  destruct (Nat.ltb_spec 0 (size (unallowed_keys h self kwargs)))
    as [ _ | Hz ]; [ reflexivity | ].
  assert (Hsz : size (unallowed_keys h self kwargs) = 0) by lia.
  apply size_empty_iff in Hsz.
  destruct (not_elem_of_empty (C:=gset string) k (proj1 (Hsz k) Hk)).
Qed.

Lemma update_accepts h self kwargs d :
  (forall k, In k (map fst kwargs) -> is_Some (getattr h self k)) ->
  upd d h self kwargs
  = match assign d h self kwargs with
    | None => None
    | Some (Returns _ h') => Some (Returns self h')
    | Some (Raises e h') => Some (Raises e h')
    end.
Proof.
  intros Hall. unfold update.
  destruct (Nat.ltb_spec 0 (size (unallowed_keys h self kwargs)))
    as [ Hpos | _ ]; [ | reflexivity ].
  apply size_pos_elem_of in Hpos as (k & Hk).
  apply elem_of_unallowed_keys in Hk as [Hin Hnone].
  destruct (Hall k Hin) as [v Hv]. congruence.
Qed.

(** A value that is not an instance is stored in its stored form and the
    assignment returns. *)
Lemma setattr_plain d h self name v :
  isinstance_JSONObject v = false ->
  setattr (S d) h self name v
  = Some (Returns tt (store h self name (stored_form self name v))).
Proof. destruct v; simpl; intros Hi; try discriminate; reflexivity. Qed.

Lemma assign_all_plain d h self kwargs :
  Forall (fun kv => isinstance_JSONObject (snd kv) = false) kwargs ->
  assign (S d) h self kwargs = Some (Returns tt (assigned self kwargs h)).
Proof.
  intros Hall. revert h.
  induction Hall as [ | [k v] kwargs Hv _ IH ]; intros h; [ reflexivity | ].
  cbn [assign_all]. rewrite (setattr_plain d h self k v Hv).
  apply IH.
Qed.

Lemma assigned_other self kwargs h k :
  ~ In k (map fst kwargs) ->
  getattr (assigned self kwargs h) self k = getattr h self k.
Proof.
  revert h. induction kwargs as [ | [k0 v0] kwargs IH ]; intros h Hnin;
    [ reflexivity | ].
  simpl in Hnin. unfold assigned. cbn [fold_left fst snd].
  fold (assigned self kwargs
          (store h self k0 (stored_form self k0 v0))).
  rewrite IH by tauto. apply getattr_store_ne. right. intros ->. tauto.
Qed.


(** X11.  Unknown keys are refused before anything is assigned.  When some
    key of the mapping is not an attribute of the instance, [update] raises
    [ValueError] and leaves every object as it was, whatever the other keys
    and values are.  The message names every such key: it is the f-string of
    lines 89-90 over the unknown keys, each once, joined by a comma and a
    space in the order the set yields them. *)
Theorem update_rejects_unknown_keys d h self kwargs :
  (exists k, In k (map fst kwargs) /\ getattr h self k = None) ->
  exists msg keys,
    upd d h self kwargs = Some (Raises (ValueError msg) h)
    /\ msg = not_allowed_message (join ", " keys) (class_of h self)
    /\ NoDup keys
    /\ (forall k, In k keys
                  <-> In k (map fst kwargs) /\ getattr h self k = None)
    /\ (forall k, In k (map fst kwargs) -> getattr h self k = None ->
                  occurs_in k msg).
Proof.
  intros Hbad.
  assert (Hkeys : forall k, In k (elements (unallowed_keys h self kwargs))
                            <-> In k (map fst kwargs)
                                /\ getattr h self k = None).
  { intros k. rewrite <- list_elem_of_In, elem_of_elements.
    apply elem_of_unallowed_keys. }
  eexists. exists (elements (unallowed_keys h self kwargs)).
  split; [ apply update_rejects, Hbad | ].
  split; [ reflexivity | ].
  split; [ apply NoDup_elements | ].
  split; [ exact Hkeys | ].
  intros k Hin Hnone. apply not_allowed_message_occurs.
  apply Hkeys. auto.
Qed.
End update_facts.

(** ** The top-level operations *)

Section operations_facts.
Variable Config : Type.
Variable config : string -> Config.
Variable validator_transform :
  string -> TransformingContext Config -> world -> outcome world unit.
Variable validator_validate :
  string -> ValidatingContext Config -> world -> outcome world unit.
Variable validator_tojson :
  string -> ToJSONContext Config -> world -> outcome world value.
Variable fields : string -> list Field.

Lemma no_fill_blanks_key (kwargs : list (string * value)) :
  ~ In "fill_blanks" (map fst kwargs) ->
  existsb (fun kv => String.eqb (fst kv) "fill_blanks") kwargs = false.
Proof.
  intros Hnin. apply not_true_is_false. intros Hex.
  apply existsb_exists in Hex as ([k v] & Hin & Hk).
  apply String.eqb_eq in Hk. simpl in Hk. subst k.
  apply Hnin. apply in_map_iff. exists ("fill_blanks", v). auto.
Qed.

Lemma set_call_bound w self fill_blanks kwargs :
  ~ In "fill_blanks" (map fst kwargs) ->
  __set_call Config config validator_transform w self fill_blanks kwargs
  = __set Config config validator_transform w self fill_blanks kwargs.
Proof.
  intros Hnin. unfold __set_call. rewrite no_fill_blanks_key by exact Hnin.
  reflexivity.
Qed.

Lemma set_call_clash w self fill_blanks kwargs :
  In "fill_blanks" (map fst kwargs) ->
  __set_call Config config validator_transform w self fill_blanks kwargs
  = Raises TypeError w.
Proof.
  intros Hin. unfold __set_call.
  apply in_map_iff in Hin as ([k v] & Hk & Hin). simpl in Hk. subst k.
  assert (Hex : existsb (fun kv => String.eqb (fst kv) "fill_blanks") kwargs
                = true).
  { apply existsb_exists. exists ("fill_blanks", v). auto. }
  rewrite Hex. reflexivity.
Qed.

(** C6, as the code has it.  A [set] or a construction whose keyed input has
    no key [fill_blanks] constructs one [LookupMap] and enters the
    transformation with it: the traversal starts in a world that has exactly
    one lookup map more, and the map in its context is that new one.
    [validate] does the same for the validation.  [tojson] constructs none:
    its context has no lookup map and the traversal starts in the world as
    it was.  The map of a call is not used again: with traversals that never
    lose count of a lookup map, every lookup map constructed once the call
    has ended is another one. *)
Theorem lookup_map_per_operation w self kwargs all_fields ignore_writeonly :
  let cls := class_of (objects w) self in
  let fresh := mkLookupMap (lookup_maps w) in
  let w_one_more := mkWorld (objects w) (S (lookup_maps w)) in
  (~ In "fill_blanks" (map fst kwargs) ->
   (exists ctx,
      set Config config validator_transform w self kwargs
      = match validator_transform cls ctx w_one_more with
        | Returns _ w' => Returns self w'
        | Raises e w' => Raises e w'
        end
      /\ t_lookup_map Config ctx = fresh)
   /\ (exists ctx,
      __init__ Config config validator_transform fields w self kwargs
      = validator_transform cls ctx
          (mkWorld (blanked fields (objects w) self) (S (lookup_maps w)))
      /\ t_lookup_map Config ctx = fresh)
   /\ (keeps_lookup_maps validator_transform ->
       forall w_later,
         (lookup_maps
            (state_of (set Config config validator_transform w self kwargs))
          <= lookup_maps w_later
          \/ lookup_maps
               (state_of (__init__ Config config validator_transform fields
                                   w self kwargs))
             <= lookup_maps w_later) ->
         fst (new_LookupMap w_later) <> fresh))
  /\ (exists ctx,
        validate Config config validator_validate w self all_fields
        = match validator_validate cls ctx w_one_more with
          | Returns _ w' => Returns self w'
          | Raises e w' => Raises e w'
          end
        /\ v_lookup_map Config ctx = fresh)
  /\ (keeps_lookup_maps validator_validate ->
      forall w_later,
        lookup_maps
          (state_of (validate Config config validator_validate w self
                              all_fields))
        <= lookup_maps w_later ->
        fst (new_LookupMap w_later) <> fresh)
  /\ tojson Config config validator_tojson w self ignore_writeonly
     = validator_tojson cls (mkToJSONContext Config self (config cls)
                                             ignore_writeonly) w.
Proof.
  intros cls fresh w_one_more.
  assert (Hnew : forall n w_later,
            S (lookup_maps w) <= n -> n <= lookup_maps w_later ->
            fst (new_LookupMap w_later) <> fresh).
  { intros n w_later Hn Hlater Heq. unfold fresh in Heq. simpl in Heq.
    injection Heq as Heq. lia. }
  split; [ | split; [ | split ] ].
  - intros Hnin. split; [ | split ].
    + unfold set. rewrite set_call_bound by exact Hnin.
      eexists. split; reflexivity.
    + unfold __init__. rewrite set_call_bound by exact Hnin.
      unfold __set. cbn [new_LookupMap objects lookup_maps].
      rewrite blank_fold_class. eexists. split; reflexivity.
    + intros Hkeeps w_later Hlater.
      unfold set, __init__ in Hlater.
      rewrite !set_call_bound in Hlater by exact Hnin.
      unfold __set in Hlater. cbn [new_LookupMap] in Hlater.
      destruct Hlater as [ Hlater | Hlater ].
      * match type of Hlater with
        | context [validator_transform ?c ?ctx ?w1] =>
            pose proof (Hkeeps c ctx w1) as Hk;
            destruct (validator_transform c ctx w1) as [ [] w2 | e w2 ]
        end; cbn [state_of lookup_maps] in Hk, Hlater;
          exact (Hnew _ _ Hk Hlater).
      * match type of Hlater with
        | context [validator_transform ?c ?ctx ?w1] =>
            pose proof (Hkeeps c ctx w1) as Hk
        end.
        cbn [state_of lookup_maps] in Hk, Hlater.
        exact (Hnew _ _ Hk Hlater).
  - eexists. split; reflexivity.
  - intros Hkeeps w_later Hlater.
    unfold validate in Hlater. cbn [new_LookupMap] in Hlater.
    match type of Hlater with
    | context [validator_validate ?c ?ctx ?w1] =>
        pose proof (Hkeeps c ctx w1) as Hk;
        destruct (validator_validate c ctx w1) as [ [] w2 | e w2 ]
    end; cbn [state_of lookup_maps] in Hk, Hlater;
      exact (Hnew _ _ Hk Hlater).
  - reflexivity.
Qed.

(** C7, as the code has it.  [is_valid] runs the validation with
    [all_fields=False] on the instance itself.  When [validate] raises
    [ValidationException] it returns [False]; when [validate] returns it
    returns [True]; every other exception that [validate] raises leaves
    [is_valid] as it is; and in no case does [ValidationException] leave
    [is_valid]. *)
Theorem is_valid_catches_validation_failure w self :
  (exists ctx w1,
     v_all_fields Config ctx = Some false
     /\ v_value Config ctx = self
     /\ validate Config config validator_validate w self (Some false)
        = match validator_validate (class_of (objects w) self) ctx w1 with
          | Returns _ w' => Returns self w'
          | Raises e w' => Raises e w'
          end
     /\ is_valid Config config validator_validate w self
        = match validator_validate (class_of (objects w) self) ctx w1 with
          | Returns _ w' => Returns true w'
          | Raises ValidationException w' => Returns false w'
          | Raises e w' => Raises e w'
          end)
  /\ (forall w',
     validate Config config validator_validate w self (Some false)
     = Raises ValidationException w' ->
     is_valid Config config validator_validate w self = Returns false w')
  /\ (forall o w',
     validate Config config validator_validate w self (Some false)
     = Returns o w' ->
     is_valid Config config validator_validate w self = Returns true w')
  /\ (forall e w',
     validate Config config validator_validate w self (Some false)
     = Raises e w' ->
     e <> ValidationException ->
     is_valid Config config validator_validate w self = Raises e w')
  /\ (forall w',
     is_valid Config config validator_validate w self
     <> Raises ValidationException w').
Proof.
  split; [ | split; [ | split; [ | split ] ] ].
  - unfold is_valid, validate. cbn [new_LookupMap].
    eexists. eexists.
    split; [ | split; [ | split; [ reflexivity | ] ] ];
      [ reflexivity | reflexivity | ].
    match goal with
    | |- context [validator_validate ?c ?ctx ?w1] =>
        destruct (validator_validate c ctx w1) as [ [] w2 | [] w2 ]
    end; reflexivity.
  - unfold is_valid. intros w' ->. reflexivity.
  - unfold is_valid. intros o w' ->. reflexivity.
  - unfold is_valid. intros e w' -> Hne.
    destruct e; try reflexivity. congruence.
  - unfold is_valid. intros w'.
    destruct (validate Config config validator_validate w self (Some false))
      as [ o w1 | [] w1 ]; discriminate.
Qed.
End operations_facts.

(** * Further properties of the attribute hook *)

Section setattr_invariants.
Variable fields : string -> list Field.
Variable other_field : string -> string -> Field -> option Field.
Variable limit : nat.
#[local] Abbreviation dcf := (dataclass_fields fields).
#[local] Abbreviation setattr := (__setattr__ fields other_field limit).

Lemma store_other h o name v o' : o' <> o -> store h o name v o' = h o'.
Proof.
  intros Hne. unfold store. destruct (Nat.eqb_spec o' o); congruence.
Qed.

(** One assignment changes no instance other than [self] and the assigned
    instance. *)
Lemma setattr_frame_step d h self name v out o :
  setattr d h self name v = Some out ->
  o <> self ->
  v <> VObj o ->
  state_of out o = h o.
Proof.
  revert h self name v out.
  induction d as [ | d IH ]; intros h self name v out Hrun Hself Hv;
    [ discriminate | ].
  cbn [__setattr__] in Hrun. cbn zeta in Hrun.
  split_setattr Hrun; try discriminate;
    try (injection Hrun as <-; cbn [state_of];
         rewrite ?store_other; congruence).
  - apply IH in Hrun; [ | congruence | congruence ].
    rewrite Hrun. apply store_other. exact Hself.
  - apply IH in Hrun; [ | congruence | discriminate ].
    rewrite Hrun. apply store_other. exact Hself.
Qed.

(** One assignment keeps every class and every attribute in place. *)
Lemma setattr_attributes_step d h self name v out :
  setattr d h self name v = Some out ->
  (forall o, class_of (state_of out) o = class_of h o)
  /\ (forall o n, is_Some (getattr h o n) ->
                  is_Some (getattr (state_of out) o n)).
Proof.
  intros Hrun.
  { revert h self name v out Hrun.
    induction d as [ | d IH ]; intros h self name v out Hrun;
      [ discriminate | ].
    cbn [__setattr__] in Hrun. cbn zeta in Hrun.
    split_setattr Hrun; try discriminate;
      try (injection Hrun as <-; cbn [state_of]; split;
           [ intros; rewrite ?class_of_store; reflexivity
           | intros; repeat apply getattr_store_is_Some; assumption ]).
    - apply IH in Hrun as [Hc Ha]. split.
      + intros x. rewrite Hc. apply class_of_store.
      + intros x n Hs. apply Ha, getattr_store_is_Some, Hs.
    - apply IH in Hrun as [Hc Ha]. split.
      + intros x. rewrite Hc. apply class_of_store.
      + intros x n Hs. apply Ha, getattr_store_is_Some, Hs. }
Qed.


Lemma well_owned_store h o name v :
  well_owned h ->
  match v with
  | VOwnedList owner keypath _ | VOwnedDict owner keypath _ =>
      owner = o /\ keypath = name
  | VList _ | VDict _ => False
  | _ => True
  end ->
  well_owned (store h o name v).
Proof.
  intros Hw Hv o' n' v' Hget.
  destruct (Nat.eq_dec o' o) as [ -> | Ho ].
  - destruct (String.string_dec n' name) as [ -> | Hn ].
    + rewrite getattr_store_eq in Hget. injection Hget as <-. exact Hv.
    + rewrite getattr_store_ne in Hget by auto. exact (Hw _ _ _ Hget).
  - rewrite getattr_store_ne in Hget by auto. exact (Hw _ _ _ Hget).
Qed.

(** One assignment keeps the owned collections well owned. *)
Lemma setattr_well_owned_step d h self name v out :
  setattr d h self name v = Some out ->
  well_owned h ->
  well_owned (state_of out).
Proof.
  revert h self name v out.
  induction d as [ | d IH ]; intros h self name v out Hrun Hw;
    [ discriminate | ].
  cbn [__setattr__] in Hrun. cbn zeta in Hrun.
  split_setattr Hrun; try discriminate;
    try (injection Hrun as <-; cbn [state_of];
         repeat (apply well_owned_store; [ | solve [ auto ] ]); exact Hw).
  all: try (eapply IH; [ exact Hrun | ]; apply well_owned_store;
            solve [ auto ]).
  injection Hrun as <-. cbn [state_of].
    match goal with
    | Hg : getattr _ ?b ?n = Some ?cur, Hl : as_list ?cur = Some _ |- _ =>
        pose proof (well_owned_store _ self name (VObj b) Hw I _ _ _ Hg)
          as Hcur;
        apply well_owned_store; [ apply well_owned_store; auto | ];
        destruct cur; simpl in *; try discriminate; tauto
    end.
Qed.



(** X5.  Synchronizing into a list-valued inverse never removes or reorders
    the back-links that are there: whatever the outcome of [a.rel = b], the
    list that [b.inv] held is a prefix of the list it holds afterwards, and
    what follows it is nothing, or [a] alone when [a] was not in the list
    before. *)
Theorem sync_keeps_back_links d h a b rel sfield ofield cur l out :
  find_field fields (class_of h a) rel = Some sfield ->
  is_key_storage (field_storage (field_description sfield)) = true ->
  other_field (class_of h a) (class_of h b) sfield = Some ofield ->
  field_type (field_description ofield) = LIST ->
  getattr (store h a rel (VObj b)) b (field_name ofield) = Some cur ->
  as_list cur = Some l ->
  setattr (S d) h a rel (VObj b) = Some out ->
  exists v l',
    getattr (state_of out) b (field_name ofield) = Some v
    /\ as_list v = Some (l ++ l')%list
    /\ (l' = [] \/ (l' = [VObj a] /\ occurrences (VObj a) l = 0)).
Proof.
  intros Hs Hk Ho Hty Hcur Hl Hrun.
  cbn [__setattr__] in Hrun.
  rewrite !class_of_store, Hs in Hrun. cbn zeta in Hrun.
  rewrite Hk, Ho, Hty, Hcur, Hl in Hrun.
  destruct (py_in dcf limit _ (VObj a) l) as [ [ | ] | e ] eqn:Hin;
    injection Hrun as <-; cbn [state_of].
  - exists cur, []. rewrite app_nil_r. auto.
  - exists (append cur (VObj a)), [VObj a].
    split; [ apply getattr_store_eq | ]. split.
    + destruct cur; simpl in *; try discriminate; congruence.
    + right. split; [ reflexivity | ].
      exact (py_in_false_occurrences fields limit _ a l Hin).
  - exists cur, []. rewrite app_nil_r. auto.
Qed.

Lemma double_store_same_attributes h a b rel inv x y :
  a <> b ->
  same_attributes (store (store h a rel x) b inv y)
                  (store (store h b inv y) a rel x).
Proof.
  intros Hab o n.
  destruct (Nat.eq_dec o a) as [ -> | Ha ].
  - rewrite (getattr_store_ne _ b) by auto.
    destruct (String.string_dec n rel) as [ -> | Hn ].
    + rewrite !getattr_store_eq. reflexivity.
    + rewrite !(getattr_store_ne _ a) by auto.
      rewrite getattr_store_ne by auto. reflexivity.
  - rewrite (getattr_store_ne (store h b inv y) a) by auto.
    destruct (Nat.eq_dec o b) as [ -> | Hb ].
    + destruct (String.string_dec n inv) as [ -> | Hn ].
      * rewrite !getattr_store_eq. reflexivity.
      * rewrite !(getattr_store_ne _ b) by auto.
        rewrite getattr_store_ne by auto. reflexivity.
    + rewrite !getattr_store_ne by auto. reflexivity.
Qed.

Lemma link_unset_pair d h a b rel inv sa sb :
  a <> b ->
  find_field fields (class_of h a) rel = Some sa ->
  find_field fields (class_of h b) inv = Some sb ->
  is_key_storage (field_storage (field_description sa)) = true ->
  field_type (field_description sa) = INSTANCE ->
  field_type (field_description sb) = INSTANCE ->
  other_field (class_of h a) (class_of h b) sa = Some sb ->
  other_field (class_of h b) (class_of h a) sb = Some sa ->
  has_all_fields fields h b = true ->
  getattr h b inv = Some VNone ->
  0 < limit ->
  setattr (S (S d)) h a rel (VObj b)
  = Some (Returns tt (store (store h a rel (VObj b)) b inv (VObj a))).
Proof.
  intros Hab Hsa Hsb Hka Hta Htb Hab' Hba Hall Hnone Hlim.
  pose proof (find_field_name fields _ _ _ Hsa) as Hna.
  pose proof (find_field_name fields _ _ _ Hsb) as Hnb.
  rewrite (sync_instance_unfold fields other_field limit (S d) h a b rel
             sa sb VNone); try assumption.
  - destruct limit as [ | n ]; [ lia | ].
    cbn [py_ne py_eq as_list as_dict negb]. rewrite Hnb.
    apply (back_assignment_returns fields other_field (S n) d _ a b rel inv
             sa sb).
    + apply getattr_store_eq.
    + rewrite class_of_store. exact Hsb.
    + rewrite !class_of_store. exact Hba.
    + exact Hna.
    + exact Hta.
    + apply has_all_fields_store. exact Hall.
    + lia.
  - rewrite Hnb, getattr_store_ne by auto. exact Hnone.
Qed.

(** X6.  A one-to-one relationship can be made from either side: starting
    with both fields unset, [a.rel = b] and [b.inv = a] both return, and
    both leave the same attribute values everywhere, with [a.rel] holding
    [b] and [b.inv] holding [a]. *)
Theorem link_from_either_side d h a b rel inv sa sb :
  a <> b ->
  find_field fields (class_of h a) rel = Some sa ->
  find_field fields (class_of h b) inv = Some sb ->
  is_key_storage (field_storage (field_description sa)) = true ->
  is_key_storage (field_storage (field_description sb)) = true ->
  field_type (field_description sa) = INSTANCE ->
  field_type (field_description sb) = INSTANCE ->
  other_field (class_of h a) (class_of h b) sa = Some sb ->
  other_field (class_of h b) (class_of h a) sb = Some sa ->
  has_all_fields fields h a = true ->
  has_all_fields fields h b = true ->
  getattr h a rel = Some VNone ->
  getattr h b inv = Some VNone ->
  0 < limit ->
  exists h1 h2,
    setattr (S (S d)) h a rel (VObj b) = Some (Returns tt h1)
    /\ setattr (S (S d)) h b inv (VObj a) = Some (Returns tt h2)
    /\ same_attributes h1 h2
    /\ getattr h1 a rel = Some (VObj b)
    /\ getattr h1 b inv = Some (VObj a).
Proof.
  intros Hab Hsa Hsb Hka Hkb Hta Htb Hab' Hba Halla Hallb Hna Hnb Hlim.
  exists (store (store h a rel (VObj b)) b inv (VObj a)),
         (store (store h b inv (VObj a)) a rel (VObj b)).
  split; [ apply (link_unset_pair d h a b rel inv sa sb); assumption | ].
  split; [ apply (link_unset_pair d h b a inv rel sb sa); auto | ].
  split; [ apply double_store_same_attributes; exact Hab | ].
  split.
  - rewrite getattr_store_ne by auto. apply getattr_store_eq.
  - apply getattr_store_eq.
Qed.
End setattr_invariants.


(** * Further properties of assignment and batch update *)

Section update_invariants.
Variable fields : string -> list Field.
Variable other_field : string -> string -> Field -> option Field.
Variable limit : nat.
#[local] Abbreviation setattr := (__setattr__ fields other_field limit).
#[local] Abbreviation assign := (assign_all fields other_field limit).
#[local] Abbreviation upd := (update fields other_field limit).

Lemma assign_all_app d h self kw1 kw2 :
  assign d h self (kw1 ++ kw2)
  = match assign d h self kw1 with
    | Some (Returns _ h1) => assign d h1 self kw2
    | r => r
    end.
Proof.
  revert h. induction kw1 as [ | [k v] kw1 IH ]; intros h; [ reflexivity | ].
  cbn [assign_all app].
  destruct (setattr d h self k v) as [ [ [] h1 | e h1 ] | ];
    [ apply IH | reflexivity | reflexivity ].
Qed.

(** What each assignment of the loop keeps, the loop keeps. *)
Lemma assign_all_keeps (P : heap -> heap -> Prop) d self kwargs :
  (forall h, P h h) ->
  (forall h1 h2 h3, P h1 h2 -> P h2 h3 -> P h1 h3) ->
  (forall h k v out, In (k, v) kwargs ->
     setattr d h self k v = Some out -> P h (state_of out)) ->
  forall h out, assign d h self kwargs = Some out -> P h (state_of out).
Proof.
  intros Hrefl Htrans.
  induction kwargs as [ | [k v] kwargs IH ]; intros Hstep h out Hrun.
  - injection Hrun as <-. apply Hrefl.
  - cbn [assign_all] in Hrun.
    destruct (setattr d h self k v) as [ [ [] h1 | e h1 ] | ] eqn:E;
      [ | | discriminate ].
    + eapply Htrans; [ exact (Hstep _ _ _ _ (or_introl eq_refl) E) | ].
      apply IH; [ | exact Hrun ].
      intros h0 k0 v0 out0 Hin. apply Hstep. right. exact Hin.
    + injection Hrun as <-. exact (Hstep _ _ _ _ (or_introl eq_refl) E).
Qed.

(** The two ways [update] ends: at the key check, with nothing assigned, or
    as the loop of assignments ends. *)
Lemma update_outcome d h self kwargs out :
  upd d h self kwargs = Some out ->
  (exists msg, out = Raises (ValueError msg) h
               /\ exists k, In k (map fst kwargs) /\ getattr h self k = None)
  \/ (exists out', assign d h self kwargs = Some out'
                   /\ state_of out = state_of out'
                   /\ forall e h', out = Raises e h' -> out' = Raises e h').
Proof.
  unfold update. intros Hrun.
  destruct (Nat.ltb_spec 0 (size (unallowed_keys h self kwargs)))
    as [ Hpos | _ ].
  - left. injection Hrun as <-. eexists. split; [ reflexivity | ].
    apply size_pos_elem_of in Hpos as (k & Hk).
    apply elem_of_unallowed_keys in Hk. eauto.
  - right.
    destruct (assign d h self kwargs) as [ [ [] h1 | e h1 ] | ];
      [ | | discriminate ]; injection Hrun as <-; eexists;
      (split; [ reflexivity | ]); split; try reflexivity.
    + discriminate.
    + intros e' h' [= <- <-]. reflexivity.
Qed.

(** X1.  An assignment [self.name = v] changes no instance other than
    [self] and, when [v] is an instance, [v]; an [update] changes no
    instance other than [self] and the instances among its values.  Every
    other object is left exactly as it was, whatever the outcome: a
    relationship that is reassigned leaves the instance that was linked
    before untouched. *)
Theorem assignment_frame d h self o :
  o <> self ->
  (forall name v out,
     setattr d h self name v = Some out -> v <> VObj o ->
     state_of out o = h o)
  /\ (forall kwargs out,
     upd d h self kwargs = Some out ->
     (forall k, ~ In (k, VObj o) kwargs) ->
     state_of out o = h o).
Proof.
  intros Hself. split.
  - intros name v out Hrun Hv.
    exact (setattr_frame_step fields other_field limit d h self name v out o
             Hrun Hself Hv).
  - intros kwargs out Hrun Hnot.
    apply update_outcome in Hrun
      as [ (msg & -> & _) | (out' & Hloop & -> & _) ]; [ reflexivity | ].
    revert h out' Hloop.
    apply (assign_all_keeps (fun h1 h2 => h2 o = h1 o)).
    + reflexivity.
    + intros h1 h2 h3 H12 H23. congruence.
    + intros h0 k v out0 Hin Hstep.
      apply (setattr_frame_step fields other_field limit d h0 self k v out0 o
               Hstep Hself).
      intros ->. exact (Hnot k Hin).
Qed.

(** X3.  Assignments and updates keep the owned collections well owned: if
    every list or dict held in an attribute is an owned collection whose
    owner is the holder and whose keypath is the attribute name, the same
    is true after an assignment under a name that is stored in the instance
    dictionary and after an [update] with such keys, whatever the
    outcome. *)
Theorem assignment_keeps_well_owned d h self :
  well_owned h ->
  (forall name v out,
     reserved_name name = false ->
     setattr d h self name v = Some out -> well_owned (state_of out))
  /\ (forall kwargs out,
     Forall (fun kv => reserved_name (fst kv) = false) kwargs ->
     upd d h self kwargs = Some out -> well_owned (state_of out)).
Proof.
  intros Hw. split.
  - intros name v out _ Hrun.
    exact (setattr_well_owned_step fields other_field limit _ _ _ _ _ _
             Hrun Hw).
  - intros kwargs out _ Hrun.
    apply update_outcome in Hrun
      as [ (msg & -> & _) | (out' & Hloop & -> & _) ]; [ exact Hw | ].
    revert Hw. revert h out' Hloop.
    apply (assign_all_keeps (fun h1 h2 => well_owned h1 -> well_owned h2)).
    + auto.
    + auto.
    + intros h0 k v out0 _ Hstep Hw0.
      exact (setattr_well_owned_step fields other_field limit _ _ _ _ _ _
               Hstep Hw0).
Qed.

Lemma assign_all_keeps_attributes d h self kwargs out :
  assign d h self kwargs = Some out ->
  forall o n, is_Some (getattr h o n) -> is_Some (getattr (state_of out) o n).
Proof.
  revert h out.
  apply (assign_all_keeps
           (fun h1 h2 => forall o n, is_Some (getattr h1 o n) ->
                                     is_Some (getattr h2 o n))).
  - auto.
  - auto.
  - intros h0 k v out0 _ Hstep.
    exact (proj2 (setattr_attributes_step fields other_field limit _ _ _ _ _
                    _ Hstep)).
Qed.

(** X7.  Updates compose: for two mappings that have no key in common, all
    of whose keys are attributes of the instance, when the update with the
    first mapping returns, one update with the union of the two (the items
    of the first followed by the items of the second) ends exactly as the
    update with the second mapping run after the first. *)
Theorem update_app d h self kw1 kw2 h1 :
  NoDup (map fst (kw1 ++ kw2)) ->
  (forall k, In k (map fst (kw1 ++ kw2)) -> is_Some (getattr h self k)) ->
  upd d h self kw1 = Some (Returns self h1) ->
  upd d h self (kw1 ++ kw2) = upd d h1 self kw2.
Proof.
  intros _ Hok Hfirst.
  assert (Hok1 : forall k, In k (map fst kw1) -> is_Some (getattr h self k)).
  { intros k Hin. apply Hok. rewrite map_app. apply in_or_app. auto. }
  rewrite (update_accepts fields other_field limit h self kw1 d Hok1)
    in Hfirst.
  destruct (assign d h self kw1) as [ [ [] h1' | e h1' ] | ] eqn:E1;
    try discriminate.
  injection Hfirst as ->.
  rewrite (update_accepts fields other_field limit h self (kw1 ++ kw2) d Hok).
  rewrite assign_all_app, E1.
  symmetry. apply update_accepts.
  intros k Hin.
  apply (assign_all_keeps_attributes d h self kw1 (Returns tt h1) E1).
  apply Hok. rewrite map_app. apply in_or_app. auto.
Qed.

(** X8.  An [update] whose values are no instances changes nothing but the
    attributes it names: it returns [self], every other attribute of the
    instance and every other object is as before, and with an empty mapping
    nothing changes at all. *)
Theorem update_plain_frame d h self kwargs :
  (forall k, In k (map fst kwargs) -> is_Some (getattr h self k)) ->
  Forall (fun kv => isinstance_JSONObject (snd kv) = false) kwargs ->
  exists h',
    upd (S d) h self kwargs = Some (Returns self h')
    /\ (forall n, ~ In n (map fst kwargs) ->
                  getattr h' self n = getattr h self n)
    /\ (forall o, o <> self -> h' o = h o)
    /\ (kwargs = [] -> h' = h).
Proof.
  intros Hok Hplain. exists (assigned self kwargs h). split; [ | split; [ | split ] ].
  - rewrite update_accepts by exact Hok.
    rewrite (assign_all_plain fields other_field limit d h self kwargs Hplain).
    reflexivity.
  - intros n Hn. apply (assigned_other fields other_field). exact Hn.
  - intros o Ho. clear Hok Hplain. revert h.
    induction kwargs as [ | [k v] kwargs IH ]; intros h; [ reflexivity | ].
    unfold assigned. cbn [fold_left fst snd].
    fold (assigned self kwargs (store h self k (stored_form self k v))).
    rewrite IH. apply store_other. exact Ho.
  - intros ->. reflexivity.
Qed.

(** X9.  When exactly one key of the mapping is not an attribute of the
    instance, the message of the error names that key alone: it is the key
    between backquotes, followed by "not allowed in", the class name and a
    full stop. *)
Theorem update_single_unknown_key d h self kwargs k :
  In k (map fst kwargs) ->
  getattr h self k = None ->
  (forall k', In k' (map fst kwargs) -> k' <> k ->
              is_Some (getattr h self k')) ->
  upd d h self kwargs
  = Some (Raises (ValueError ("`" +:+ k +:+ "` not allowed in "
                                  +:+ class_of h self +:+ ".")) h).
Proof.
  intros Hin Hnone Hothers.
  rewrite (update_rejects fields other_field limit h self kwargs d)
    by eauto.
  assert (Hset : unallowed_keys h self kwargs = {[ k ]}).
  { apply set_eq. intros x.
    rewrite elem_of_unallowed_keys, elem_of_singleton. split.
    - intros [Hx Hxn]. destruct (String.string_dec x k) as [ | Hne ]; [ auto | ].
      destruct (Hothers x Hx Hne) as [v Hv]. congruence.
    - intros ->. auto. }
  rewrite Hset, elements_singleton. reflexivity.
Qed.





End update_invariants.

(** * Further properties of construction *)

Section init_facts.
Variable Config : Type.
Variable config : string -> Config.
Variable validator_transform :
  string -> TransformingContext Config -> world -> outcome world unit.
Variable fields : string -> list Field.

(** X10.  Construction starts from a blank instance: [__init__] first
    assigns [None] to every declared field of [self], whatever the instance
    held before, so the instance has all its declared fields from then on;
    attributes that are no declared fields and all other objects are as
    they were.  With a keyed input that has no key [fill_blanks] it then
    enters the transformation of that input, which is asked to fill blanks
    and to write into [self].  With the key [fill_blanks] the call of
    line 41 is refused: [__init__] raises [TypeError] with the fields
    blanked, and no transformation is entered. *)
Theorem init_starts_blank w self kwargs :
  let h := blanked fields (objects w) self in
  (~ In "fill_blanks" (map fst kwargs) ->
   exists ctx,
     __init__ Config config validator_transform fields w self kwargs
     = validator_transform (class_of h self) ctx
         (mkWorld h (S (lookup_maps w)))
     /\ t_value Config ctx = kwargs
     /\ t_dest Config ctx = self
     /\ t_fill_dest_blanks Config ctx = true)
  /\ (In "fill_blanks" (map fst kwargs) ->
      __init__ Config config validator_transform fields w self kwargs
      = Raises TypeError (mkWorld h (lookup_maps w)))
  /\ class_of h self = class_of (objects w) self
  /\ (forall f,
        In f (dataclass_fields fields (class_of (objects w) self)) ->
        getattr h self f = Some VNone)
  /\ has_all_fields fields h self = true
  /\ (forall n,
        ~ In n (dataclass_fields fields (class_of (objects w) self)) ->
        getattr h self n = getattr (objects w) self n)
  /\ (forall o, o <> self -> h o = objects w o).
Proof.
  intros h. unfold h, blanked.
  split.
  { intros Hnin. unfold __init__.
    rewrite (set_call_bound Config config validator_transform) by exact Hnin.
    eexists. repeat split. }
  split.
  { intros Hin. unfold __init__.
    apply (set_call_clash Config config validator_transform). exact Hin. }
  split; [ apply blank_fold_class | ].
  split; [ intros f Hf; apply blank_fold_name; exact Hf | ].
  split.
  - unfold has_all_fields. rewrite forallb_forall, blank_fold_class.
    intros f Hf. apply bool_decide_eq_true.
    rewrite blank_fold_name by exact Hf. eauto.
  - split.
    + intros n Hn. apply blank_fold_other_name. exact Hn.
    + intros o Ho. apply blank_fold_other_object. exact Ho.
Qed.
End init_facts.

(** ** The properties on the example schema *)

Import Schema.

Lemma NoDup_two (a b : string) : a <> b -> NoDup [a; b].
Proof.
  intros Hab. apply NoDup_cons. split.
  - rewrite list_elem_of_In. intros [ Heq | [] ]. congruence.
  - apply NoDup_cons. split; [ | apply NoDup_nil_2 ].
    rewrite list_elem_of_In. intros [].
Qed.

(** C1, as the code has it on equal instances.  Two profiles with equal field values are
    assigned the same user one after the other.  The first becomes the
    user's profile; the second assignment returns but leaves the first
    there, because the comparison of line 176 finds the two equal: the
    inverse field of the user does not hold the second profile. *)
Lemma equal_instance_keeps_inverse :
  let r1 := setattr 10 h0 profile1 "user" (VObj user) in
  let r2 := then_setattr r1 profile2 "user" (VObj user) in
  attr_after r1 user "profile" = Some (VObj profile1)
  /\ returned r2 = true
  /\ attr_after r2 profile2 "user" = Some (VObj user)
  /\ attr_after r2 user "profile" = Some (VObj profile1)
  /\ VObj profile1 <> VObj profile2.
Proof. repeat split; try (vm_compute; reflexivity). discriminate. Qed.

(** C2, as the code has it on equal instances.  Two posts with equal field values are given
    the same author.  The second is not appended to the author's posts,
    because the membership test of line 183 finds it equal to the first:
    the list is not the two posts in order.  (A post whose author is
    assigned again is not appended again either.) *)
Lemma equal_instance_not_appended :
  let r1 := setattr 10 h0 post1 "author" (VObj user) in
  let r2 := then_setattr r1 post2 "author" (VObj user) in
  let r1' := then_setattr r1 post1 "author" (VObj user) in
  attr_after r1 user "posts" = Some (VOwnedList user "posts" [VObj post1])
  /\ returned r2 = true
  /\ attr_after r2 user "posts" = Some (VOwnedList user "posts" [VObj post1])
  /\ VObj post1 <> VObj post2
  /\ returned r1' = true
  /\ attr_after r1' user "posts" = Some (VOwnedList user "posts" [VObj post1]).
Proof. repeat split; try (vm_compute; reflexivity). discriminate. Qed.

(** C3, as the code has it on equal instances.  After a first post has been given its
    author, a second post with equal field values is given the same author
    twice in a row.  Both assignments return, and the author's posts hold
    the second post not once but never. *)
Lemma equal_instance_relinked_is_absent :
  let r1 := setattr 10 h0 post1 "author" (VObj user) in
  let r2 := then_setattr r1 post2 "author" (VObj user) in
  let r3 := then_setattr r2 post2 "author" (VObj user) in
  returned r2 = true
  /\ returned r3 = true
  /\ attr_after r3 post2 "author" = Some (VObj user)
  /\ attr_after r3 user "posts" = Some (VOwnedList user "posts" [VObj post1])
  /\ occurrences (VObj post2) [VObj post1] = 0.
Proof. repeat split; vm_compute; reflexivity. Qed.

Lemma h_one_post_reached :
  then_setattr (setattr 10 h0 post1 "title" (VStr "x"))
               post1 "author" (VObj user)
  = Some (Returns tt h_one_post).
Proof. reflexivity. Qed.



(** C5, as the code has it when an assignment raises.  Every key of the mapping is an attribute of
    [post1], and yet [update] does not return [self]: assigning the user
    under [nope], which is no declared field, raises [StopIteration] with
    the user stored there, and the key that comes after it is not
    assigned. *)
Lemma update_stops_at_raising_assignment :
  getattr h_extra post1 "nope" = Some VNone
  /\ getattr h_extra post1 "title" = Some VNone
  /\ exists h',
       update fields other_field recursion_limit 5 h_extra post1
              [("nope", VObj user); ("title", VStr "x")]
       = Some (Raises StopIteration h')
       /\ getattr h' post1 "nope" = Some (VObj user)
       /\ getattr h' post1 "title" = Some VNone.
Proof. split; [ | split ]; [ reflexivity .. | ]. eexists. repeat split. Qed.

(** With traversals that construct no lookup map themselves, a [tojson]
    call ends with as many lookup maps as it started with, where a
    [validate] call and a [set] call end with one more: [tojson] constructs
    none. *)
Lemma tojson_constructs_no_lookup_map :
  lookup_maps (state_of (tojson Config config engine_tojson w0 user false))
  = lookup_maps w0
  /\ lookup_maps (state_of (validate Config config engine_validate w0 user None))
     = S (lookup_maps w0)
  /\ lookup_maps (state_of (set Config config engine_transform w0 user []))
     = S (lookup_maps w0).
Proof. repeat split. Qed.

Lemma engine_validate_keeps_lookup_maps : keeps_lookup_maps engine_validate.
Proof.
  intros c ctx w. unfold engine_validate.
  destruct (forallb _ _); cbn [state_of]; lia.
Qed.

Lemma lookup_map_per_operation_witness :
  (exists ctx,
     set Config config engine_transform w0 user [("name", VStr "x")]
     = match engine_transform "User" ctx (mkWorld h0 1) with
       | Returns _ w' => Returns user w'
       | Raises e w' => Raises e w'
       end
     /\ t_lookup_map Config ctx = mkLookupMap 0)
  /\ fst (new_LookupMap
            (state_of (validate Config config engine_validate w0 user None)))
     <> mkLookupMap 0
  /\ tojson Config config engine_tojson w0 user false
     = engine_tojson "User" (mkToJSONContext Config user tt false) w0.
Proof.
  destruct (lookup_map_per_operation Config config engine_transform
              engine_validate engine_tojson fields w0 user
              [("name", VStr "x")] None false)
    as (Hset & _ & Hlater & Hjson).
  split; [ | split ].
  - apply Hset. simpl. intros [ H | [] ]. discriminate.
  - apply (Hlater engine_validate_keeps_lookup_maps). apply le_n.
  - exact Hjson.
Defined.

(** The validation ends in an exception that is no validation failure:
    [is_valid] does not return [True], it ends in that exception. *)
Lemma is_valid_lets_other_exceptions_through :
  validate Config config engine_validate_overflow w0 user (Some false)
  = Raises RecursionError (mkWorld h0 1)
  /\ is_valid Config config engine_validate_overflow w0 user
     = Raises RecursionError (mkWorld h0 1)
  /\ ~ (exists w',
          is_valid Config config engine_validate_overflow w0 user
          = Returns true w').
Proof.
  split; [ reflexivity | ]. split; [ reflexivity | ].
  intros (w' & Hrun). discriminate Hrun.
Qed.

Lemma is_valid_catches_validation_failure_witness :
  is_valid Config config engine_validate w0 profile1
  = Returns false (mkWorld h0 1)
  /\ is_valid Config config engine_validate w1 profile1
     = Returns true (mkWorld (objects w1) 1)
  /\ is_valid Config config engine_validate_overflow w0 profile1
     = Raises RecursionError (mkWorld h0 1).
Proof.
  split; [ | split ].
  - apply (proj1 (proj2 (is_valid_catches_validation_failure Config config
                    engine_validate w0 profile1))).
    reflexivity.
  - apply (proj1 (proj2 (proj2 (is_valid_catches_validation_failure Config
                    config engine_validate w1 profile1))) profile1).
    reflexivity.
  - apply (proj1 (proj2 (proj2 (proj2 (is_valid_catches_validation_failure
                    Config config engine_validate_overflow w0 profile1))))).
    + reflexivity.
    + discriminate.
Defined.


(** A single post is assigned to [user.posts], a list-valued field whose
    inverse [Post.author] is single-valued.  One nested assignment is not
    enough: the back-assignment [post1.author = user] finds no list in
    [user.posts] and assigns the one-element list in a second nested
    assignment. *)
Lemma list_valued_field_takes_two_nested_assignments :
  setattr 2 h0 user "posts" (VObj post1) = None
  /\ returned (setattr 3 h0 user "posts" (VObj post1)) = true
  /\ attr_after (setattr 3 h0 user "posts" (VObj post1)) post1 "author"
     = Some (VObj user)
  /\ attr_after (setattr 3 h0 user "posts" (VObj post1)) user "posts"
     = Some (VOwnedList user "posts" [VObj post1]).
Proof. repeat split. Qed.

Lemma setattr_sync_terminates_witness :
  (exists out,
     setattr 3 h0 user "posts" (VObj post1) = Some out
     /\ setattr 8 h0 user "posts" (VObj post1) = Some out)
  /\ (exists out,
     setattr 2 h0 profile1 "user" (VObj user) = Some out
     /\ setattr 7 h0 profile1 "user" (VObj user) = Some out).
Proof.
  split.
  - apply (proj1 (setattr_sync_terminates fields other_field recursion_limit
                    5 h0 user post1 "posts" eq_refl)).
  - apply (proj2 (setattr_sync_terminates fields other_field recursion_limit
                    5 h0 profile1 user "user" eq_refl)).
    reflexivity.
Defined.

Lemma setattr_undeclared_instance_witness :
  setattr 1 h0 post1 "nope" (VObj user)
  = Some (Raises StopIteration (store h0 post1 "nope" (VObj user)))
  /\ getattr (store h0 post1 "nope" (VObj user)) post1 "nope"
     = Some (VObj user).
Proof.
  apply (setattr_undeclared_instance fields other_field recursion_limit 0 h0
           post1 "nope" user).
  reflexivity.
Defined.

(** An instance assigned under an undeclared name is in the attribute when
    [StopIteration] comes out: on the example, and for every schema, heap
    and name, no assignment of that kind ends without the value stored. *)
Lemma undeclared_instance_is_stored :
  (exists h',
     setattr 10 h0 post1 "nope" (VObj user) = Some (Raises StopIteration h')
     /\ getattr h0 post1 "nope" = None
     /\ getattr h' post1 "nope" = Some (VObj user))
  /\ ~ (exists fields other_field limit d h self name b out,
          find_field fields (class_of h self) name = None
          /\ __setattr__ fields other_field limit (S d) h self name (VObj b)
             = Some out
          /\ getattr (state_of out) self name <> Some (VObj b)).
Proof.
  split.
  - eexists. repeat split.
  - intros (fs & ofl & lim & d & h & self & name & b & out & Hnone & Hrun & Hne).
    cbn [__setattr__] in Hrun. rewrite class_of_store, Hnone in Hrun.
    injection Hrun as <-. apply Hne. simpl. apply getattr_store_eq.
Qed.

(** ** The further properties on the example schema *)

Lemma blank_values_none c n v :
  obj_dict (blank c) !! n = Some v -> v = VNone.
Proof.
  unfold blank. cbn [obj_dict]. intros Hget.
  apply elem_of_list_to_map_2, list_elem_of_In, in_map_iff in Hget
    as (f & Heq & _).
  congruence.
Qed.

Lemma relink_h0_well_owned : well_owned Relink.h0.
Proof.
  intros o n v Hget.
  assert (Hv : v = VNone); [ | subst v; exact I ].
  unfold getattr, Relink.h0, h0 in Hget.
  do 7 (destruct o as [ | o ];
        [ first [ exact (blank_values_none _ _ _ Hget)
                | cbn [obj_dict] in Hget; rewrite lookup_empty in Hget;
                  discriminate ] | ]).
  cbn [obj_dict] in Hget. rewrite lookup_empty in Hget. discriminate.
Qed.

(** The post is given another author: the author linked before is left as
    it was, still listing the post. *)
Lemma assignment_frame_witness :
  exists out,
    setattr 2 Relink.h_linked post1 "author" (VObj Relink.user2) = Some out
    /\ state_of out user = Relink.h_linked user
    /\ getattr (state_of out) user "posts"
       = Some (VOwnedList user "posts" [VObj post1])
    /\ getattr (state_of out) Relink.user2 "posts"
       = Some (VOwnedList Relink.user2 "posts" [VObj post1]).
Proof.
  eexists. split; [ reflexivity | ].
  split; [ | split; reflexivity ].
  apply (proj1 (assignment_frame fields other_field recursion_limit 2
                  Relink.h_linked post1 user ltac:(discriminate))
           "author" (VObj Relink.user2)).
  - reflexivity.
  - discriminate.
Defined.

Lemma assignment_keeps_well_owned_witness :
  exists out,
    update fields other_field recursion_limit 2 Relink.h0 post1
           [("title", VList [VInt 1]); ("author", VObj user)] = Some out
    /\ well_owned (state_of out).
Proof.
  eexists. split; [ reflexivity | ].
  apply (proj2 (assignment_keeps_well_owned fields other_field
                  recursion_limit 2 Relink.h0 post1 relink_h0_well_owned)
           [("title", VList [VInt 1]); ("author", VObj user)]).
  - repeat constructor.
  - reflexivity.
Defined.

Lemma sync_keeps_back_links_witness :
  exists out v l',
    setattr 1 h_one_post post2 "author" (VObj user) = Some out
    /\ getattr (state_of out) user "posts" = Some v
    /\ as_list v = Some ([VObj post1] ++ l')%list
    /\ (l' = [] \/ (l' = [VObj post2]
                    /\ occurrences (VObj post2) [VObj post1] = 0)).
Proof.
  eexists.
  destruct (sync_keeps_back_links fields other_field recursion_limit 0
              h_one_post post2 user "author" author_f posts_f
              (VOwnedList user "posts" [VObj post1]) [VObj post1] _
              eq_refl eq_refl eq_refl eq_refl eq_refl eq_refl eq_refl)
    as (v & l' & Hv & Hl & Hl').
  exists v, l'. split; [ reflexivity | ]. auto.
Defined.

Lemma link_from_either_side_witness :
  exists h1 h2,
    setattr 2 h0 profile1 "user" (VObj user) = Some (Returns tt h1)
    /\ setattr 2 h0 user "profile" (VObj profile1) = Some (Returns tt h2)
    /\ same_attributes h1 h2
    /\ getattr h1 profile1 "user" = Some (VObj user)
    /\ getattr h1 user "profile" = Some (VObj profile1).
Proof.
  apply (link_from_either_side fields other_field recursion_limit 0 h0
           profile1 user "user" "profile" user_f profile_f);
    try reflexivity.
  - discriminate.
  - unfold recursion_limit. lia.
Defined.

Lemma update_app_witness :
  update fields other_field recursion_limit 2 h0 post1
         ([("title", VStr "x")] ++ [("author", VObj user)])
  = update fields other_field recursion_limit 2
           (store h0 post1 "title" (VStr "x")) post1 [("author", VObj user)].
Proof.
  apply (update_app fields other_field recursion_limit 2 h0 post1
           [("title", VStr "x")] [("author", VObj user)]).
  - apply NoDup_two. discriminate.
  - intros k [ <- | [ <- | [] ] ]; eexists; reflexivity.
  - reflexivity.
Defined.

Lemma update_plain_frame_witness :
  exists h',
    update fields other_field recursion_limit 1 h0 post1
           [("title", VStr "x")] = Some (Returns post1 h')
    /\ getattr h' post1 "author" = getattr h0 post1 "author"
    /\ h' user = h0 user.
Proof.
  destruct (update_plain_frame fields other_field recursion_limit 0 h0 post1
              [("title", VStr "x")])
    as (h' & Hrun & Hattr & Hobj & _).
  - intros k [ <- | [] ]. eexists. reflexivity.
  - repeat constructor.
  - exists h'. split; [ exact Hrun | ]. split.
    + apply Hattr. simpl. intros [ H | [] ]. discriminate.
    + apply Hobj. discriminate.
Defined.

Lemma update_single_unknown_key_witness :
  update fields other_field recursion_limit 1 h0 post1
         [("title", VInt 1); ("zzz", VInt 2)]
  = Some (Raises (ValueError "`zzz` not allowed in Post.") h0).
Proof.
  apply (update_single_unknown_key fields other_field recursion_limit 1 h0
           post1 [("title", VInt 1); ("zzz", VInt 2)] "zzz").
  - simpl. auto.
  - reflexivity.
  - intros k' [ <- | [ <- | [] ] ] Hne;
      [ eexists; reflexivity | exfalso; apply Hne; reflexivity ].
Defined.

Lemma init_starts_blank_witness :
  getattr (blanked fields h_one_post post1) post1 "title" = Some VNone
  /\ getattr (blanked fields h_one_post post1) post1 "author" = Some VNone
  /\ blanked fields h_one_post post1 user = h_one_post user
  /\ __init__ Config config engine_transform fields (mkWorld h_one_post 0)
              post1 [("fill_blanks", VInt 1)]
     = Raises TypeError (mkWorld (blanked fields h_one_post post1) 0).
Proof.
  destruct (init_starts_blank Config config engine_transform fields
              (mkWorld h_one_post 0) post1 [("fill_blanks", VInt 1)])
    as (_ & Hclash & _ & Hnone & _ & _ & Hobj).
  split; [ | split; [ | split ] ].
  - apply Hnone. simpl. auto.
  - apply Hnone. simpl. auto.
  - apply Hobj. discriminate.
  - apply Hclash. simpl. auto.
Defined.

Lemma update_rejects_unknown_keys_witness :
  exists msg,
    update fields other_field recursion_limit 1 h0 post1
           [("title", VInt 1); ("zzz", VInt 2); ("abc", VNone)]
    = Some (Raises (ValueError msg) h0)
    /\ occurs_in "zzz" msg /\ occurs_in "abc" msg.
Proof.
  destruct (update_rejects_unknown_keys fields other_field recursion_limit 1
              h0 post1 [("title", VInt 1); ("zzz", VInt 2); ("abc", VNone)])
    as (msg & keys & Hrun & _ & _ & _ & Hmsg).
  { exists "zzz". split; [ simpl; auto | reflexivity ]. }
  exists msg. split; [ exact Hrun | ].
  split; apply Hmsg; simpl; auto.
Defined.
